(** * Polymarket range grid bot: price rounding, ladder planning and
      order reconciliation

    A shallow embedding of [src/poly.py] ([round_price] and the methods of
    [PolymarketGridBot] that plan the ladder and reconcile the order index)
    together with the properties stated for them.

    Numbers.  The Python code computes on binary floats and, inside
    [round_price], on [Decimal].  Here every such number is an exact
    rational ([Q]): arithmetic and comparisons are the mathematical ones,
    [==] on floats is [Qeq].  Integers ([grid_levels], [price_precision],
    loop indices) are [nat], the constructor rejecting the other values.

    The order index [active_orders] is a Python [dict]; it is an
    association list in insertion order, since [update_active_orders] walks
    the keys in that order to build the list of fills. *)

From Stdlib Require Import QArith Qround Qabs ZArith List String Bool Lia Lqa.
From Stdlib Require Import Setoid Morphisms SetoidList.
Import ListNotations.

Local Open Scope Q_scope.

(** ** Numeric primitives *)

Module Num.

Definition Qltb (x y : Q) : bool := negb (Qle_bool y x).

  (** Python [round(x)] on a float: the nearest integer, ties to even. *)
Definition py_round (x : Q) : Z :=
    let f := Qfloor x in
    let r := x - inject_Z f in
    if Qltb r (1#2) then f
    else if Qltb (1#2) r then (f + 1)%Z
    else if Z.even f then f else (f + 1)%Z.

  (** Nearest integer, ties away from zero ([ROUND_HALF_UP] of [decimal]). *)
Definition round_half_up (y : Q) : Z :=
    if Qle_bool 0 y then Qfloor (y + (1#2))
    else (- Qfloor (- y + (1#2)))%Z.

Definition pow10 (n : nat) : Q := inject_Z (10 ^ Z.of_nat n).

  (** [Decimal.quantize(Decimal(10) ** -precision, rounding=ROUND_HALF_UP)]. *)
Definition quantize (x : Q) (precision : nat) : Q :=
    inject_Z (round_half_up (x * pow10 precision)) / pow10 precision.

  (** Python [round(x, ndigits)] on a float. *)
Definition py_round_ndigits (x : Q) (ndigits : nat) : Q :=
    inject_Z (py_round (x * pow10 ndigits)) / pow10 ndigits.

End Num.

Import Num.

(** ** [round_price] (poly.py, lines 25-38) *)

Definition round_price (price : Q) (precision : nat) (grid_spacing : Q) : Q :=
  let rounded := inject_Z (py_round (price / grid_spacing)) * grid_spacing in
  quantize rounded precision.

(** ** Python control flow and containers *)

(** The outcome of one pass through a [for] body: fall through or
    [continue] to the next element, or [break] / [return] out of the loop. *)
Inductive ctl (S : Type) : Type :=
| Continue (s : S)
| Break (s : S).
Arguments Continue {S} s.
Arguments Break {S} s.

Fixpoint for_each {A S : Type} (body : A -> S -> ctl S) (xs : list A) (s : S) : S :=
  match xs with
  | [] => s
  | x :: rest =>
      match body x s with
      | Continue s' => for_each body rest s'
      | Break s' => s'
      end
  end.

(** [range(n)] *)
Definition range (n : nat) : list nat := seq 0 n.

(** A [dict] with string keys, in insertion order. *)
Module Dict.
Section Ops.
Context {V : Type}.
Definition t := list (string * V).

Definition keys (d : t) : list string := map fst d.

Fixpoint get (k : string) (d : t) : option V :=
      match d with
      | [] => None
      | (k', v) :: rest => if String.eqb k k' then Some v else get k rest
      end.

Definition mem (k : string) (d : t) : bool :=
      match get k d with Some _ => true | None => false end.

    (** [d[k] = v]: an existing key keeps its place, a new one goes last. *)
Fixpoint set (k : string) (v : V) (d : t) : t :=
      match d with
      | [] => [(k, v)]
      | (k', v') :: rest =>
          if String.eqb k k' then (k, v) :: rest else (k', v') :: set k v rest
      end.

    (** [del d[k]] *)
Definition del (k : string) (d : t) : t :=
      filter (fun kv => negb (String.eqb k (fst kv))) d.

    (** Keys of a dict are pairwise distinct. *)
Definition wf (d : t) : Prop := NoDup (keys d).
End Ops.
Arguments t : clear implicits.
End Dict.

(** A [set] of strings / of floats, with the [in] test. *)
Definition str_in (x : string) (s : list string) : bool := existsb (String.eqb x) s.
Definition price_in (x : Q) (s : list Q) : bool := existsb (Qeq_bool x) s.

(** ** Data model *)

Inductive side : Type := BUY | SELL.

Definition side_eqb (a b : side) : bool :=
  match a, b with
  | BUY, BUY | SELL, SELL => true
  | _, _ => false
  end.

(** An entry of [active_orders] (written by [place_order]). *)
Record order : Type := mk_order {
  side_of : side;
  price : Q;
  size : Q;
  timestamp : Q
}.

(** A rung of the target grid (an element of the list returned by
    [generate_range_grid_orders]). *)
Record grid_order : Type := mk_grid_order {
  g_side : side;
  g_price : Q;
  g_size : Q;
  g_level : Z
}.

(** An element of the list returned by [update_active_orders]. *)
Record filled_order : Type := mk_filled {
  f_side : side;
  f_price : Q;
  f_size : Q;
  f_value : Q
}.

(** An open order as reported by the exchange; only its [id] is read. *)
Record exchange_order : Type := mk_exchange_order { id : string }.

(** The arguments of [PolymarketGridBot.__init__] that the modelled methods
    read. *)
Record config : Type := mk_config {
  grid_levels : nat;
  grid_spacing : Q;
  order_size_usd : Q;
  max_position_usd : Q;
  min_order_size : Q;
  max_order_size : Q;
  range_min : Q;
  range_max : Q;
  price_precision : nat
}.

(** The attributes of a bot instance: its configuration and tracked state. *)
Record bot : Type := mk_bot {
  cfg : config;
  active_orders : Dict.t order;
  position_yes : Q;
  position_no : Q;
  realized_pnl : Q;
  total_volume : Q
}.

Definition set_active_orders (b : bot) (d : Dict.t order) : bot :=
  mk_bot (cfg b) d (position_yes b) (position_no b) (realized_pnl b) (total_volume b).
Definition set_position_yes (b : bot) (p : Q) : bot :=
  mk_bot (cfg b) (active_orders b) p (position_no b) (realized_pnl b) (total_volume b).
Definition set_total_volume (b : bot) (v : Q) : bot :=
  mk_bot (cfg b) (active_orders b) (position_yes b) (position_no b) (realized_pnl b) v.

(** The numeric checks of [__init__] (lines 68-81); a configuration failing
    one raises [ValueError] and no bot exists.  The check of the precision
    against the printed decimals of the spacing (lines 84-91) only narrows
    the accepted configurations further and no result below relies on it. *)
Definition valid_config (c : config) : bool :=
  Qltb 0 (grid_spacing c) && Qltb (grid_spacing c) 1
  && Qltb 0 (order_size_usd c)
  && Nat.ltb 0 (grid_levels c)
  && Qltb 0 (max_position_usd c)
  && Qltb 0 (range_min c) && Qltb (range_min c) 1
  && Qltb 0 (range_max c) && Qltb (range_max c) 1
  && Qltb (range_min c) (range_max c).

(** The state set up by [__init__] (lines 161-166). *)
Definition init (c : config) : option bot :=
  if valid_config c then Some (mk_bot c [] 0 0 0 0) else None.

(** [run_cycle] skips the cycle unless [0 < mid_price < 1] (line 724). *)
Definition valid_mid_price (mid_price : Q) : bool :=
  Qltb 0 mid_price && Qltb mid_price 1.

(** ** Position ledger (poly.py, lines 317-363) *)

Definition get_current_positions (b : bot) : Q * Q :=
  (position_yes b, position_no b).

Definition calculate_position_value (b : bot) (mid_price : Q) : Q :=
  position_yes b * mid_price.

Definition can_place_order (b : bot) (s : side) (mid_price : Q) : bool :=
  let position_value := calculate_position_value b mid_price in
  match s with
  | BUY =>
      if Qle_bool (max_position_usd (cfg b)) position_value then false else true
  | SELL =>
      if Qle_bool (position_yes b) 0 then false
      else if Qle_bool position_value (- max_position_usd (cfg b)) then false
      else true
  end.

Definition calculate_order_size (b : bot) (mid_price : Q) : Q :=
  let position_value := Qabs (calculate_position_value b mid_price) in
  if Qle_bool (max_position_usd (cfg b)) position_value then 0
  else order_size_usd (cfg b).

(** ** Ladder planning: [generate_range_grid_orders] (lines 365-483) *)

(** The two locals the loops update: the result list and the set of prices
    already taken. *)
Record grid_state : Type := mk_grid_state {
  orders : list grid_order;
  placed_prices : list Q
}.

Definition buy_price (b : bot) (base_price : Q) (i : nat) : Q :=
  let raw_price := base_price - inject_Z (Z.of_nat i) * grid_spacing (cfg b) in
  round_price raw_price (price_precision (cfg b)) (grid_spacing (cfg b)).

Definition sell_price (b : bot) (base_price : Q) (i : nat) : Q :=
  let raw_price := base_price + inject_Z (Z.of_nat i) * grid_spacing (cfg b) in
  round_price raw_price (price_precision (cfg b)) (grid_spacing (cfg b)).

(** Lines 416-430 and 467-481: the size of a rung and the append.  [None]
    is the [continue] taken when the size is below the minimum. *)
Definition sized_order (b : bot) (s : side) (size_usd price : Q) (level : Z)
  : option grid_order :=
  let size := size_usd / price in
  if Qltb size (min_order_size (cfg b)) then None
  else
    let size := if Qltb (max_order_size (cfg b)) size
                then max_order_size (cfg b) else size in
    Some (mk_grid_order s price (py_round_ndigits size 2) level).

(** Body of the loop of lines 392-430. *)
Definition buy_body (b : bot) (mid_price size_usd base_price : Q)
           (i : nat) (st : grid_state) : ctl grid_state :=
  let price := buy_price b base_price i in
  if Qltb price (range_min (cfg b)) || Qle_bool mid_price price then Continue st
  else if Qltb price (1#100) then Continue st
  else if price_in price (placed_prices st) then Continue st
  else
    let st := mk_grid_state (orders st) (price :: placed_prices st) in
    if negb (can_place_order b BUY mid_price) then Break st
    else
      match sized_order b BUY size_usd price (- Z.of_nat i) with
      | None => Continue st
      | Some o => Continue (mk_grid_state (orders st ++ [o]) (placed_prices st))
      end.

(** Body of the loop of lines 440-481. *)
Definition sell_body (b : bot) (mid_price size_usd base_price : Q)
           (i : nat) (st : grid_state) : ctl grid_state :=
  let price := sell_price b base_price i in
  if Qltb (range_max (cfg b)) price || Qle_bool price mid_price then Continue st
  else if Qltb (99#100) price then Continue st
  else if price_in price (placed_prices st) then Continue st
  else
    let st := mk_grid_state (orders st) (price :: placed_prices st) in
    if negb (can_place_order b SELL mid_price) then Break st
    else
      match sized_order b SELL size_usd price (Z.of_nat i) with
      | None => Continue st
      | Some o => Continue (mk_grid_state (orders st ++ [o]) (placed_prices st))
      end.

Definition buy_base (b : bot) (mid_price : Q) : Q :=
  let base_price := round_price mid_price (price_precision (cfg b)) (grid_spacing (cfg b)) in
  if Qle_bool mid_price base_price then base_price - grid_spacing (cfg b)
  else base_price.

Definition sell_base (b : bot) (mid_price : Q) : Q :=
  let base_price := round_price mid_price (price_precision (cfg b)) (grid_spacing (cfg b)) in
  if Qle_bool base_price mid_price then base_price + grid_spacing (cfg b)
  else base_price.

Definition generate_range_grid_orders (b : bot) (mid_price : Q) : list grid_order :=
  let st := mk_grid_state [] [] in
  let size_usd := calculate_order_size b mid_price in
  if Qeq_bool size_usd 0 then orders st
  else
    let st := for_each (buy_body b mid_price size_usd (buy_base b mid_price))
                       (range (grid_levels (cfg b))) st in
    let st := for_each (sell_body b mid_price size_usd (sell_base b mid_price))
                       (range (grid_levels (cfg b))) st in
    orders st.

(** ** Order index: placement, cancellation, reconciliation *)

(** What the exchange answers to [post_order]: a response carrying
    ['orderID'], or anything else (an error payload or an exception). *)
Inductive post_response : Type :=
| OrderID (order_id : string)
| PostFailed.

(** [place_order] (lines 485-547).  [post attempt] is the exchange's answer
    to the [attempt]-th try, [now] the clock at that moment.  The result is
    the bot afterwards and the returned order id. *)
Definition place_order_body (s : side) (price size : Q)
           (post : nat -> post_response) (now : Q)
           (attempt : nat) (st : bot * option string) : ctl (bot * option string) :=
  let b := fst st in
  if Qle_bool price 0 || Qle_bool 1 price then Break (b, None)
  else if Qle_bool size 0 then Break (b, None)
  else
    match post attempt with
    | OrderID order_id =>
        let b := set_active_orders b
                   (Dict.set order_id (mk_order s price size now) (active_orders b)) in
        Break (b, Some order_id)
    | PostFailed => Continue (b, None)
    end.

Definition place_order (b : bot) (s : side) (price size : Q)
           (post : nat -> post_response) (now : Q) : bot * option string :=
  let max_retries := 2%nat in
  for_each (place_order_body s price size post now) (range max_retries) (b, None).

(** What [client.cancel] does (lines 549-567): it returns, or raises a
    message saying the order is already gone, or raises something else. *)
Inductive cancel_response : Type :=
| Cancelled
| AlreadyGone
| CancelFailed.

Definition cancel_order (b : bot) (order_id : string) (r : cancel_response) : bot :=
  match r with
  | Cancelled | AlreadyGone =>
      if Dict.mem order_id (active_orders b)
      then set_active_orders b (Dict.del order_id (active_orders b))
      else b
  | CancelFailed => b
  end.

(** [cancel_all_orders] (lines 569-609) on the open orders the exchange
    reports: with none it returns at once, otherwise the index is cleared
    after the cancellation requests. *)
Definition cancel_all_orders (b : bot) (open_orders : list exchange_order) : bot :=
  match open_orders with
  | [] => b
  | _ :: _ => set_active_orders b []
  end.

(** Lines 660-663. *)
Definition open_order_ids (open_orders : list exchange_order) : list string :=
  fold_left (fun ids o => ids ++ [id o]) open_orders [].

(** Body of the loop of lines 670-695 over the snapshot of tracked ids.  A
    key of the snapshot is still in the dict when its turn comes, so the
    lookup of line 673 succeeds; the [None] branch stands for the
    [KeyError] that cannot happen. *)
Definition fill_body (open_ids : list string)
           (st : bot * list filled_order) (order_id : string) : bot * list filled_order :=
  let '(b, filled_orders) := st in
  if negb (str_in order_id open_ids) then
    match Dict.get order_id (active_orders b) with
    | None => st
    | Some o =>
        let order_value := size o * price o in
        let filled_orders :=
          filled_orders ++ [mk_filled (side_of o) (price o) (size o) order_value] in
        let b := match side_of o with
                 | BUY => set_position_yes b (position_yes b + size o)
                 | SELL => set_position_yes b (position_yes b - size o)
                 end in
        let b := set_total_volume b (total_volume b + order_value) in
        let b := set_active_orders b (Dict.del order_id (active_orders b)) in
        (b, filled_orders)
    end
  else st.

(** [update_active_orders] (lines 656-697), given what [get_open_orders]
    returned. *)
Definition update_active_orders (b : bot) (open_orders : list exchange_order)
  : bot * list filled_order :=
  let open_ids := open_order_ids open_orders in
  let tracked_ids := Dict.keys (active_orders b) in
  fold_left (fill_body open_ids) tracked_ids (b, []).

(** ** One cycle: [run_cycle] (lines 712-811) *)

(** Lines 736-744: the position "from the API". *)
Definition refresh_position (b : bot) : bot :=
  let '(api_position, _) := get_current_positions b in
  set_position_yes b api_position.

(** Lines 761-767. *)
Definition active_prices (b : bot) (s : side) : list Q :=
  map (fun kv => price (snd kv))
      (filter (fun kv => side_eqb (side_of (snd kv)) s) (active_orders b)).

(** Lines 773-784: the rungs of the target grid with no tracked order of
    the same side at the same price. *)
Definition missing_orders (b : bot) (target_grid : list grid_order) : list grid_order :=
  filter (fun t => negb (price_in (g_price t) (active_prices b (g_side t)))) target_grid.

(** Lines 794-802; [post k] answers the tries for the [k]-th order. *)
Fixpoint place_all (b : bot) (todo : list grid_order) (k : nat)
         (post : nat -> nat -> post_response) (clock : nat -> Q) : bot :=
  match todo with
  | [] => b
  | o :: rest =>
      let b := fst (place_order b (g_side o) (g_price o) (g_size o) (post k) (clock k)) in
      place_all b rest (S k) post clock
  end.

(** The environment of one cycle: the price read, the open orders the
    exchange lists, its answers to the placements, and the clock. *)
Record cycle_env : Type := mk_env {
  current_price : option Q;
  open_orders : list exchange_order;
  post : nat -> nat -> post_response;
  clock : nat -> Q
}.

Definition run_cycle (b : bot) (e : cycle_env) : bot :=
  match current_price e with
  | None => b
  | Some mid_price =>
      if Qle_bool mid_price 0 || Qle_bool 1 mid_price then b
      else
        let b := fst (update_active_orders b (open_orders e)) in
        let b := refresh_position b in
        let target_grid := generate_range_grid_orders b mid_price in
        let todo := missing_orders b target_grid in
        place_all b todo 0 (post e) (clock e)
  end.

(** * Vocabulary of the properties *)

Definition ctl_state {S : Type} (c : ctl S) : S :=
  match c with Continue s | Break s => s end.

(** The range tests of the two loops, as accepted prices. *)
Definition side_filter (b : bot) (mid_price : Q) (s : side) (p : Q) : bool :=
  match s with
  | BUY => negb (Qltb p (range_min (cfg b)) || Qle_bool mid_price p)
           && negb (Qltb p (1#100))
  | SELL => negb (Qltb (range_max (cfg b)) p || Qle_bool p mid_price)
            && negb (Qltb (99#100) p)
  end.

(** Both loop bodies are one step on a price computed for the index. *)
Definition rung_step (b : bot) (mid_price size_usd : Q) (s : side)
           (p : Q) (level : Z) (st : grid_state) : ctl grid_state :=
  if side_filter b mid_price s p then
    if price_in p (placed_prices st) then Continue st
    else
      let st := mk_grid_state (orders st) (p :: placed_prices st) in
      if negb (can_place_order b s mid_price) then Break st
      else
        match sized_order b s size_usd p level with
        | None => Continue st
        | Some o => Continue (mk_grid_state (orders st ++ [o]) (placed_prices st))
        end
  else Continue st.

(** What one step does to the two locals. *)
Inductive stepped (b : bot) (mid su : Q) (s : side) (p : Q) (level : Z)
          (st st' : grid_state) : Prop :=
| Skipped :
    side_filter b mid s p = false \/ price_in p (placed_prices st) = true ->
    st' = st ->
    stepped b mid su s p level st st'
| Taken :
    side_filter b mid s p = true ->
    price_in p (placed_prices st) = false ->
    placed_prices st' = p :: placed_prices st ->
    orders st' = orders st ->
    stepped b mid su s p level st st'
| Emitted (o : grid_order) :
    side_filter b mid s p = true ->
    price_in p (placed_prices st) = false ->
    placed_prices st' = p :: placed_prices st ->
    can_place_order b s mid = true ->
    sized_order b s su p level = Some o ->
    orders st' = orders st ++ [o] ->
    stepped b mid su s p level st st'.

(** What is known of a rung that made it into the ladder. *)
Definition emitted (b : bot) (mid : Q) (o : grid_order) : Prop :=
  can_place_order b (g_side o) mid = true /\
  side_filter b mid (g_side o) (g_price o) = true /\
  sized_order b (g_side o) (order_size_usd (cfg b)) (g_price o) (g_level o) = Some o.

(** Index [i] is the first one of the loop whose rounded price is [pr i]. *)
Definition first_of (pr : nat -> Q) (i : nat) : Prop :=
  forall j, (j < i)%nat -> ~ pr j == pr i.

(** The order comes from rung [i] of its side, and no earlier rung of
    that side rounds to the same price. *)
Definition from_rung (s : side) (pr : nat -> Q) (lv : nat -> Z) (n : nat)
           (o : grid_order) : Prop :=
  g_side o = s ->
  exists i, (i < n)%nat /\ g_level o = lv i /\ g_price o = pr i /\ first_of pr i.

(** One pass of a loop whose rung [i] has price [pr i] and level [lv i]. *)
Definition rung_body (b : bot) (mid su : Q) (s : side) (pr : nat -> Q) (lv : nat -> Z)
           (i : nat) (st : grid_state) : ctl grid_state :=
  rung_step b mid su s (pr i) (lv i) st.

(** Every accepted price of the rungs before [k] is in the set of taken
    prices. *)
Definition seen_before (b : bot) (mid : Q) (s : side) (pr : nat -> Q)
           (k : nat) (st : grid_state) : Prop :=
  forall j, (j < k)%nat -> side_filter b mid s (pr j) = true ->
            price_in (pr j) (placed_prices st) = true.

Definition buy_rung (b : bot) (mid : Q) : grid_order -> Prop :=
  from_rung BUY (buy_price b (buy_base b mid)) (fun i => (- Z.of_nat i)%Z)
            (grid_levels (cfg b)).

Definition sell_rung (b : bot) (mid : Q) : grid_order -> Prop :=
  from_rung SELL (sell_price b (sell_base b mid)) Z.of_nat (grid_levels (cfg b)).


Definition default_config : config :=
  mk_config 5 0.02 10 100 0.1 10000 0.30 0.70 3.

(** The configuration of the worked example: three rungs a side, two
    cents apart, between 0.30 and 0.70; the other parameters at their
    defaults. *)
Definition example_config : config :=
  mk_config 3 0.02 10 100 0.1 10000 0.30 0.70 3.

Definition is_side (s : side) (o : grid_order) : bool := side_eqb (g_side o) s.

(** The prices of the rungs of one side, in ladder order, in lowest terms. *)
Definition rung_prices (s : side) (l : list grid_order) : list Q :=
  map (fun o => Qred (g_price o)) (filter (is_side s) l).

(** The size before the final [round(size, 2)]: dollars over price, capped
    at the maximum. *)
Definition capped_size (b : bot) (o : grid_order) : Q :=
  let size := order_size_usd (cfg b) / g_price o in
  if Qltb (max_order_size (cfg b)) size then max_order_size (cfg b) else size.

(** A bot holding 200 shares: at 0.50 they are worth the whole cap. *)
Definition full_bot : bot := mk_bot default_config [] 200 0 0 0.

(** A bot whose minimum order size is not a whole number of cents. *)
Definition odd_minimum_bot : bot :=
  mk_bot (mk_config 3 0.02 10 100 20.832 10000 0.30 0.70 3) [] 0 0 0 0.

(** The bot of the worked example as [__init__] leaves it, and the same
    bot holding 20 shares. *)
Definition example_bot : bot := mk_bot example_config [] 0 0 0 0.
Definition example_bot_long : bot := mk_bot example_config [] 20 0 0 0.

(** The entries of the index the exchange no longer lists, and those it
    still lists. *)
Definition disappeared (b : bot) (open_orders : list exchange_order) : Dict.t order :=
  filter (fun kv => negb (str_in (fst kv) (open_order_ids open_orders))) (active_orders b).

Definition still_open (b : bot) (open_orders : list exchange_order) : Dict.t order :=
  filter (fun kv => str_in (fst kv) (open_order_ids open_orders)) (active_orders b).

(** The fill reported for a tracked order. *)
Definition fill_of (o : order) : filled_order :=
  mk_filled (side_of o) (price o) (size o) (size o * price o).

(** What a fill adds to the held size: the size, counted up for a Buy and
    down for a Sell. *)
Definition signed_size (o : order) : Q :=
  match side_of o with
  | BUY => size o
  | SELL => - size o
  end.

Definition order_value (o : order) : Q := size o * price o.

Definition Qsum (l : list Q) : Q := fold_right Qplus 0 l.

Definition apply_position (p : Q) (o : order) : Q :=
  match side_of o with
  | BUY => p + size o
  | SELL => p - size o
  end.

Definition apply_volume (v : Q) (o : order) : Q := v + size o * price o.

(** A bot tracking one Buy order of 20 shares at 0.48. *)
Definition tracked_buy_bot : bot :=
  mk_bot example_config [("0xb1"%string, mk_order BUY 0.48 20 0)] 0 0 0 0.


(** Three cycles of the example bot at price 0.50.  In the first the
    exchange accepts the three Buy rungs.  Before the second the Buy at
    0.48 has gone, and the bot puts it back and adds the three Sell rungs.
    Before the third the three Sell orders have gone. *)
Definition answer_with (ids : list string) (k attempt : nat) : post_response :=
  match nth_error ids k with
  | Some order_id => OrderID order_id
  | None => PostFailed
  end.

Definition cycle_1 : cycle_env :=
  mk_env (Some 0.50) [] (answer_with ["b1"; "b2"; "b3"]%string) (fun _ => 0).

Definition cycle_2 : cycle_env :=
  mk_env (Some 0.50) [mk_exchange_order "b2"; mk_exchange_order "b3"]
         (answer_with ["b4"; "s1"; "s2"; "s3"]%string) (fun _ => 60).

Definition cycle_3 : cycle_env :=
  mk_env (Some 0.50)
         [mk_exchange_order "b2"; mk_exchange_order "b3"; mk_exchange_order "b4"]
         (answer_with []) (fun _ => 120).

Definition after_1 : bot := run_cycle example_bot cycle_1.
Definition after_2 : bot := run_cycle after_1 cycle_2.
Definition after_3 : bot := run_cycle after_2 cycle_3.

(** The exchange rejects the first try and accepts the second. *)
Definition second_try (order_id : string) (attempt : nat) : post_response :=
  match attempt with
  | 1%nat => OrderID order_id
  | _ => PostFailed
  end.

(** An open order as [client.get_orders] lists it: next to what the
    reconciliation reads of it, the asset and the market it belongs to
    ([None] for a dict without the key, or a field that holds [None]). *)
Record listed_order : Type := mk_listed {
  listed : exchange_order;
  asset_id : option string;
  market : option string
}.

(** What a call of [client.get_orders] gives: it raises, or returns a list
    of orders. *)
Inductive listing : Type :=
| Raises
| Returns (orders : list listed_order).

Definition is_token (token_id : string) (field : option string) : bool :=
  match field with
  | Some x => String.eqb x token_id
  | None => false
  end.

(** [get_open_orders] (lines 611-654), given the answers to the query by
    asset, to the query by market and to the query without parameters: the
    first query that returns a non-empty list wins unfiltered; the
    unparameterised listing is filtered to the token; when it raises as
    well, the result is the empty list. *)
Definition get_open_orders (token_id : string)
           (by_asset by_market everything : listing) : list listed_order :=
  match by_asset with
  | Returns (o :: orders) => o :: orders
  | _ =>
      match by_market with
      | Returns (o :: orders) => o :: orders
      | _ =>
          match everything with
          | Returns orders =>
              filter (fun o => is_token token_id (asset_id o)
                               || is_token token_id (market o)) orders
          | Raises => []
          end
      end
  end.

(** The test [place_order] applies to its arguments (lines 491-497), read
    off a tracked order. *)
Definition valid_order (o : order) : bool :=
  negb (Qle_bool (price o) 0 || Qle_bool 1 (price o)) && negb (Qle_bool (size o) 0).

Definition tracked_valid (b : bot) : bool :=
  forallb (fun kv => valid_order (snd kv)) (active_orders b).

(** Whether [run_cycle] gets past its price checks (lines 717-726). *)
Definition cycle_runs (e : cycle_env) : bool :=
  match current_price e with
  | Some mid_price => negb (Qle_bool mid_price 0 || Qle_bool 1 mid_price)
  | None => false
  end.

(** The bot after the reconciliation step of the cycle. *)
Definition reconciled (b : bot) (e : cycle_env) : bot :=
  fst (update_active_orders b (open_orders e)).

(** The entry [place_order] writes for a rung placed at time [now]. *)
Definition order_of (t : grid_order) (now : Q) : order :=
  mk_order (g_side t) (g_price t) (g_size t) now.

(** The exchange accepts every first try, giving out the ids of a list. *)
Definition six_ids : list string := ["o1"; "o2"; "o3"; "o4"; "o5"; "o6"]%string.

Definition accepting_cycle : cycle_env :=
  mk_env (Some 0.50) [] (answer_with six_ids) (fun _ => 0).

(** A call that returns a value or raises. *)
Inductive outcome (A : Type) : Type :=
| Returned (a : A)
| Raised.
Arguments Returned {A} a.
Arguments Raised {A}.

(** Body of the loop of [get_order_book] (lines 201-216).  [fetch attempt]
    is what [client.get_order_book] gives at that try, [None] when it
    raises; the state is the result so far and the seconds slept. *)
Definition get_order_book_body {B : Type} (fetch : nat -> option B)
           (attempt : nat) (st : option B * nat) : ctl (option B * nat) :=
  let max_retries := 3%nat in
  match fetch attempt with
  | Some book => Break (Some book, snd st)
  | None =>
      if (attempt <? max_retries - 1)%nat
      then let wait_time := (2 ^ attempt)%nat in Continue (None, (snd st + wait_time)%nat)
      else Break (None, snd st)
  end.

Definition get_order_book {B : Type} (fetch : nat -> option B) : option B * nat :=
  let max_retries := 3%nat in
  for_each (get_order_book_body fetch) (range max_retries) (None, 0%nat).

(** A level of the order book: an object with a [price] attribute (what
    the client library returns) or a dict with the key ['price'].  The
    price is taken to parse as a float. *)
Inductive level : Type :=
| LevelObject (p : Q)
| LevelDict (p : Q).

Definition level_price (l : level) : Q :=
  match l with
  | LevelObject p | LevelDict p => p
  end.

Definition has_price_attr (l : level) : bool :=
  match l with
  | LevelObject _ => true
  | LevelDict _ => false
  end.

Record order_book : Type := mk_order_book {
  bids : list level;
  asks : list level
}.

(** [float(l.price)] and [float(l['price'])]: the first raises on a dict,
    the second on an object. *)
Definition attr_price (l : level) : outcome Q :=
  match l with
  | LevelObject p => Returned p
  | LevelDict _ => Raised
  end.

Definition item_price (l : level) : outcome Q :=
  match l with
  | LevelDict p => Returned p
  | LevelObject _ => Raised
  end.

(** [read(levels[0]) if levels else None] *)
Definition best (read : level -> outcome Q) (levels : list level) : outcome (option Q) :=
  match levels with
  | [] => Returned None
  | l :: _ =>
      match read l with
      | Returned p => Returned (Some p)
      | Raised => Raised
      end
  end.

(** The truth value of an optional float: [None] and 0.0 count as false. *)
Definition nonzero (x : option Q) : option Q :=
  match x with
  | Some v => if Qeq_bool v 0 then None else Some v
  | None => None
  end.

(** [get_mid_price] (lines 218-257), given what [get_order_book] returned.
    Which way the prices are read is decided by the first bid alone
    (line 233). *)
Definition get_mid_price (book : option order_book) : outcome (option Q) :=
  match book with
  | None => Returned None
  | Some book =>
      let read :=
        match bids book with
        | l :: _ => if has_price_attr l then attr_price else item_price
        | [] => item_price
        end in
      match best read (bids book) with
      | Raised => Raised
      | Returned best_bid =>
          match best read (asks book) with
          | Raised => Raised
          | Returned best_ask =>
              match nonzero best_bid, nonzero best_ask with
              | Some best_bid, Some best_ask => Returned (Some ((best_bid + best_ask) / 2))
              | Some best_bid, None => Returned (Some (best_bid + 0.005))
              | None, Some best_ask => Returned (Some (best_ask - 0.005))
              | None, None => Returned (Some 0.5)
              end
          end
      end
  end.

(** The loop of lines 297-301 of [get_token_price_from_gamma] over the
    parsed token ids and prices of the market, from index [idx] on. *)
Fixpoint find_token_price (token_id : string) (clob_token_ids : list string)
         (outcome_prices : list Q) (idx : nat) : option Q :=
  match clob_token_ids with
  | [] => None
  | t :: rest =>
      if String.eqb t token_id then
        if (idx <? length outcome_prices)%nat
        then Some (nth idx outcome_prices 0)
        else find_token_price token_id rest outcome_prices (S idx)
      else find_token_price token_id rest outcome_prices (S idx)
  end.

(** The position of the first occurrence of a token id. *)
Fixpoint index_of (token_id : string) (ids : list string) : option nat :=
  match ids with
  | [] => None
  | t :: rest =>
      if String.eqb t token_id then Some 0%nat
      else option_map S (index_of token_id rest)
  end.

(** The exchange gives the book at the third try. *)
Definition third_try {B : Type} (book : B) (attempt : nat) : option B :=
  match attempt with
  | 2%nat => Some book
  | _ => None
  end.

(** Price [q] lies further from the mid-price than [p] on side [s]: lower
    for a Buy, higher for a Sell. *)
Definition further (s : side) (p q : Q) : Prop :=
  match s with
  | BUY => q < p
  | SELL => p < q
  end.

(** Two orders of the ladder, the first listed before the second: when they
    are on the same side, the second lies further out. *)
Definition ladder_order (o o' : grid_order) : Prop :=
  g_side o = g_side o' -> further (g_side o) (g_price o) (g_price o').

(** The order comes from a rung before [k] whose price passed the range
    tests. *)
Definition from_accepted (b : bot) (mid : Q) (s : side) (pr : nat -> Q) (k : nat)
           (o : grid_order) : Prop :=
  g_side o = s ->
  exists i, (i < k)%nat /\ g_price o = pr i /\ side_filter b mid s (pr i) = true.

(** * Properties *)


(** ** Rounding *)

Module NumFacts.

Lemma Qltb_lt (x y : Q) : Qltb x y = true <-> x < y.
Proof.
  unfold Qltb. rewrite negb_true_iff.
  destruct (Qle_bool y x) eqn:E.
  - apply Qle_bool_iff in E. split; [discriminate | intros L; exfalso; lra].
  - split; [intros _ | reflexivity].
    destruct (Qlt_le_dec x y) as [L | L]; [exact L |].
    apply Qle_bool_iff in L. congruence.
Qed.

Lemma Qltb_ge (x y : Q) : Qltb x y = false <-> y <= x.
Proof.
  unfold Qltb. rewrite negb_false_iff. apply Qle_bool_iff.
Qed.

Lemma Qle_bool_gt (x y : Q) : Qle_bool x y = false <-> y < x.
Proof.
  rewrite <- Qltb_lt. unfold Qltb. rewrite negb_true_iff. reflexivity.
Qed.

#[export] Instance Qltb_comp : Proper (Qeq ==> Qeq ==> eq) Qltb.
Proof. intros x x' Hx y y' Hy. unfold Qltb. now rewrite Hx, Hy. Qed.

Lemma inject_Z_succ (z : Z) : inject_Z (z + 1) == inject_Z z + 1.
Proof. rewrite inject_Z_plus. reflexivity. Qed.

Lemma inject_Z_lt_succ (a b : Z) : inject_Z a < inject_Z b + 1 -> (a <= b)%Z.
Proof.
  intros H. apply Z.lt_succ_r. rewrite Zlt_Qlt.
  unfold Z.succ. rewrite inject_Z_succ. lra.
Qed.

(** The floor is pinned by a unit interval. *)
Lemma Qfloor_unique (x : Q) (f : Z) :
  inject_Z f <= x -> x < inject_Z f + 1 -> Qfloor x = f.
Proof.
  intros H1 H2.
  pose proof (Qfloor_le x) as F1. pose proof (Qlt_floor x) as F2.
  rewrite inject_Z_succ in F2.
  apply Z.le_antisymm.
  - apply Z.lt_succ_r. rewrite Zlt_Qlt. unfold Z.succ. rewrite inject_Z_succ. lra.
  - apply Z.lt_succ_r. rewrite Zlt_Qlt. unfold Z.succ. rewrite inject_Z_succ. lra.
Qed.

#[export] Instance py_round_comp : Proper (Qeq ==> eq) py_round.
Proof.
  intros x y H. unfold py_round.
  rewrite (Qfloor_comp _ _ H).
  assert (E1 : Qltb (x - inject_Z (Qfloor y)) (1#2) = Qltb (y - inject_Z (Qfloor y)) (1#2))
    by now rewrite H.
  assert (E2 : Qltb (1#2) (x - inject_Z (Qfloor y)) = Qltb (1#2) (y - inject_Z (Qfloor y)))
    by now rewrite H.
  now rewrite E1, E2.
Qed.

#[export] Instance round_half_up_comp : Proper (Qeq ==> eq) round_half_up.
Proof.
  intros x y H. unfold round_half_up.
  assert (E0 : Qle_bool 0 x = Qle_bool 0 y) by now rewrite H.
  assert (E1 : Qfloor (x + (1#2)) = Qfloor (y + (1#2))) by (apply Qfloor_comp; now rewrite H).
  assert (E2 : Qfloor (- x + (1#2)) = Qfloor (- y + (1#2))) by (apply Qfloor_comp; now rewrite H).
  now rewrite E0, E1, E2.
Qed.

(** [round] lands within one half of its argument. *)
Lemma py_round_near (x : Q) :
  inject_Z (py_round x) - (1#2) <= x /\ x <= inject_Z (py_round x) + (1#2).
Proof.
  unfold py_round.
  pose proof (Qfloor_le x) as F1. pose proof (Qlt_floor x) as F2.
  rewrite inject_Z_succ in F2.
  destruct (Qltb (x - inject_Z (Qfloor x)) (1#2)) eqn:E1.
  - apply Qltb_lt in E1. lra.
  - apply Qltb_ge in E1.
    destruct (Qltb (1#2) (x - inject_Z (Qfloor x))) eqn:E2.
    + rewrite inject_Z_succ. lra.
    + apply Qltb_ge in E2.
      destruct (Z.even (Qfloor x)); [| rewrite inject_Z_succ]; lra.
Qed.

(** ... and an integer strictly within one half of [x] is its [round]. *)
Lemma py_round_unique (x : Q) (k : Z) :
  inject_Z k - (1#2) < x -> x < inject_Z k + (1#2) -> py_round x = k.
Proof.
  intros H1 H2.
  pose proof (py_round_near x) as [N1 N2].
  apply Z.le_antisymm; apply inject_Z_lt_succ; lra.
Qed.

Lemma round_half_up_near (y : Q) :
  inject_Z (round_half_up y) - (1#2) <= y /\ y <= inject_Z (round_half_up y) + (1#2).
Proof.
  unfold round_half_up.
  destruct (Qle_bool 0 y).
  - pose proof (Qfloor_le (y + (1#2))) as F1. pose proof (Qlt_floor (y + (1#2))) as F2.
    rewrite inject_Z_succ in F2. lra.
  - pose proof (Qfloor_le (- y + (1#2))) as F1. pose proof (Qlt_floor (- y + (1#2))) as F2.
    rewrite inject_Z_succ in F2. rewrite inject_Z_opp. lra.
Qed.

Lemma round_half_up_unique (y : Q) (m : Z) :
  inject_Z m - (1#2) < y -> y < inject_Z m + (1#2) -> round_half_up y = m.
Proof.
  intros H1 H2.
  pose proof (round_half_up_near y) as [N1 N2].
  apply Z.le_antisymm; apply inject_Z_lt_succ; lra.
Qed.

Lemma round_half_up_Z (m : Z) : round_half_up (inject_Z m) = m.
Proof. apply round_half_up_unique; lra. Qed.

Lemma py_round_Z (k : Z) : py_round (inject_Z k) = k.
Proof. apply py_round_unique; lra. Qed.

Lemma pow10_pos (n : nat) : 0 < pow10 n.
Proof.
  unfold pow10. change 0 with (inject_Z 0). rewrite <- Zlt_Qlt.
  apply Z.pow_pos_nonneg; lia.
Qed.

End NumFacts.

Import NumFacts.





(** ** Loops *)

Section Loops.
Context {A S : Type}.

(** A property kept by every pass of the body holds when the loop ends,
    however it ends. *)
Lemma for_each_inv (body : A -> S -> ctl S) (I : S -> Prop) (xs : list A) :
  (forall x s, In x xs -> I s -> I (ctl_state (body x s))) ->
  forall s, I s -> I (for_each body xs s).
Proof.
  induction xs as [| x xs IH]; intros Hstep s Hs; simpl; [exact Hs |].
  pose proof (Hstep x s (or_introl eq_refl) Hs) as H1.
  destruct (body x s) as [s' | s']; simpl in H1; [| exact H1].
  apply IH; [| exact H1].
  intros y t Hy. apply Hstep. now right.
Qed.

Lemma for_each_ext (f g : A -> S -> ctl S) (xs : list A) (s : S) :
    (forall x t, f x t = g x t) -> for_each f xs s = for_each g xs s.
Proof.
    intros E. revert s. induction xs as [| x xs IH]; intros s; simpl; [reflexivity |].
    rewrite E. destruct (g x s); [apply IH | reflexivity].
Qed.
End Loops.

(** Over [range(n)] the property may mention how far the loop got: it
    holds at the index where the loop stopped. *)
Lemma for_range_inv {S : Type} (body : nat -> S -> ctl S) (I : nat -> S -> Prop) (n : nat) :
  (forall i s, (i < n)%nat -> I i s -> I (Datatypes.S i) (ctl_state (body i s))) ->
  forall s, I 0%nat s -> exists k, (k <= n)%nat /\ I k (for_each body (range n) s).
Proof.
  unfold range. intros Hstep.
  enough (G : forall len lo s, (lo + len <= n)%nat -> I lo s ->
              exists k, (k <= n)%nat /\ I k (for_each body (seq lo len) s)).
  { intros s Hs. apply (G n 0%nat s); [lia | exact Hs]. }
  induction len as [| len IH]; intros lo s Hlen Hs; simpl.
  - exists lo. split; [lia | exact Hs].
  - pose proof (Hstep lo s ltac:(lia) Hs) as H1.
    destruct (body lo s) as [s' | s']; simpl in H1.
    + apply IH; [lia | exact H1].
    + exists (Datatypes.S lo). split; [lia | exact H1].
Qed.

(** ** The ladder *)

Module LadderFacts.

Lemma buy_body_step b mid su base i st :
  buy_body b mid su base i st
  = rung_step b mid su BUY (buy_price b base i) (- Z.of_nat i) st.
Proof.
  unfold buy_body, rung_step, side_filter.
  destruct (Qltb _ (range_min _) || Qle_bool mid _); simpl; [reflexivity |].
  destruct (Qltb _ (1#100)); reflexivity.
Qed.

Lemma sell_body_step b mid su base i st :
  sell_body b mid su base i st
  = rung_step b mid su SELL (sell_price b base i) (Z.of_nat i) st.
Proof.
  unfold sell_body, rung_step, side_filter.
  destruct (Qltb (range_max _) _ || Qle_bool _ mid); simpl; [reflexivity |].
  destruct (Qltb (99#100) _); reflexivity.
Qed.

#[export] Instance price_in_comp : Proper (Qeq ==> eq ==> eq) price_in.
Proof.
  intros x y H l l' <-. unfold price_in.
  induction l as [| a l IH]; simpl; [reflexivity |].
  rewrite IH. f_equal. now rewrite H.
Qed.

#[export] Instance side_filter_comp b mid s : Proper (Qeq ==> eq) (side_filter b mid s).
Proof.
  intros x y H. unfold side_filter. destruct s; now rewrite H.
Qed.

Lemma price_in_InA (p : Q) (l : list Q) : price_in p l = true <-> InA Qeq p l.
Proof.
  unfold price_in. rewrite existsb_exists, InA_alt.
  split; intros [q [H1 H2]]; exists q.
  - split; [now apply Qeq_bool_iff | exact H1].
  - split; [exact H2 | now apply Qeq_bool_iff].
Qed.

Lemma rung_step_stepped b mid su s p level st :
  stepped b mid su s p level st (ctl_state (rung_step b mid su s p level st)).
Proof.
  unfold rung_step.
  destruct (side_filter b mid s p) eqn:F; [| apply Skipped; auto].
  destruct (price_in p (placed_prices st)) eqn:P; [apply Skipped; auto |].
  destruct (can_place_order b s mid) eqn:C; simpl; [| now apply Taken].
  destruct (sized_order b s su p level) as [o |] eqn:Z; simpl.
  - now apply (Emitted _ _ _ _ _ _ _ _ o).
  - now apply Taken.
Qed.

Lemma sized_order_fields b s su p level o :
  sized_order b s su p level = Some o ->
  g_side o = s /\ g_price o = p /\ g_level o = level.
Proof.
  unfold sized_order. destruct (Qltb _ _); [discriminate |].
  intros [= <-]. simpl. auto.
Qed.

End LadderFacts.

Import LadderFacts.



Module LadderInv.

Lemma calculate_order_size_cases b mid :
  calculate_order_size b mid = 0 \/
  (Qabs (position_yes b * mid) < max_position_usd (cfg b) /\
   calculate_order_size b mid = order_size_usd (cfg b)).
Proof.
  unfold calculate_order_size, calculate_position_value.
  destruct (Qle_bool _ _) eqn:E; [now left | right].
  apply Qle_bool_gt in E. auto.
Qed.

(** Establish / preserve / use, for the two loops run one after the other. *)
Lemma generate_inv b mid (I : grid_state -> Prop) :
  I (mk_grid_state [] []) ->
  (forall s p level st st',
      stepped b mid (calculate_order_size b mid) s p level st st' -> I st -> I st') ->
  exists st, I st /\ generate_range_grid_orders b mid = orders st.
Proof.
  intros H0 Hstep. unfold generate_range_grid_orders.
  destruct (Qeq_bool _ 0); [now exists (mk_grid_state [] []) |].
  eexists. split; [| reflexivity].
  apply for_each_inv.
  - intros i st _ Hst. rewrite sell_body_step.
    eapply Hstep; [apply rung_step_stepped | exact Hst].
  - apply for_each_inv; [| exact H0].
    intros i st _ Hst. rewrite buy_body_step.
    eapply Hstep; [apply rung_step_stepped | exact Hst].
Qed.

Lemma generate_emitted b mid : Forall (emitted b mid) (generate_range_grid_orders b mid).
Proof.
  destruct (calculate_order_size_cases b mid) as [Z | [_ Esz]].
  { unfold generate_range_grid_orders. rewrite Z. simpl. constructor. }
  destruct (generate_inv b mid (fun st => Forall (emitted b mid) (orders st)))
    as [st [Hst ->]]; [constructor | | exact Hst].
  intros s p level st st' Hs Hst.
  destruct Hs as [_ -> | _ _ _ -> | o F _ _ C Z ->]; try exact Hst.
  apply Forall_app. split; [exact Hst |]. constructor; [| constructor].
  rewrite Esz in Z. unfold emitted.
  destruct (sized_order_fields _ _ _ _ _ _ Z) as [-> [-> ->]].
  repeat split; assumption.
Qed.

Lemma NoDupA_snoc (l : list Q) (x : Q) :
  NoDupA Qeq l -> ~ InA Qeq x l -> NoDupA Qeq (l ++ [x]).
Proof.
  intros Hl Hx. apply NoDupA_app; [apply Q_Setoid | exact Hl | |].
  - constructor; [| constructor]. intros H. inversion H.
  - intros y Hy Hy'. apply Hx.
    inversion Hy' as [? ? E | ? ? E]; subst; [| inversion E].
    rewrite <- E. exact Hy.
Qed.

Lemma generate_distinct b mid :
  NoDupA Qeq (map g_price (generate_range_grid_orders b mid)).
Proof.
  destruct (generate_inv b mid
              (fun st => NoDupA Qeq (map g_price (orders st)) /\
                         Forall (fun o => price_in (g_price o) (placed_prices st) = true)
                                (orders st)))
    as [st [[Hst _] ->]]; [split; constructor | | exact Hst].
  intros s p level st st' Hs [ND IN].
  destruct Hs as [_ -> | _ _ P O | o _ N P _ Z O]; [now split | |].
  - rewrite O, P. split; [exact ND |].
    eapply Forall_impl; [| exact IN]. simpl. intros o ->. apply orb_true_r.
  - rewrite O, P. destruct (sized_order_fields _ _ _ _ _ _ Z) as [_ [Ep _]].
    split.
    + rewrite map_app. simpl. apply NoDupA_snoc; [exact ND |].
      rewrite Ep. intros H. apply InA_alt in H. destruct H as [q [Eq Hq]].
      apply in_map_iff in Hq. destruct Hq as [o' [<- Ho']].
      rewrite Forall_forall in IN. specialize (IN o' Ho').
      rewrite <- Eq in IN. congruence.
    + apply Forall_app. split.
      * eapply Forall_impl; [| exact IN]. simpl. intros o' ->. apply orb_true_r.
      * constructor; [| constructor]. simpl. rewrite Ep.
        rewrite (proj2 (Qeq_bool_iff p p)); [reflexivity | reflexivity].
Qed.

End LadderInv.

Import LadderInv.



Module TieBreak.

Section OneLoop.
Variables (b : bot) (mid su : Q) (s : side) (pr : nat -> Q) (lv : nat -> Z).

Lemma loop_first (n : nat) (st0 : grid_state) :
  Forall (fun o => g_side o <> s) (orders st0) ->
  Forall (from_rung s pr lv n) (orders (for_each (rung_body b mid su s pr lv) (range n) st0)).
Proof.
  intros H0.
  destruct (for_range_inv (rung_body b mid su s pr lv)
              (fun k st => seen_before b mid s pr k st /\ Forall (from_rung s pr lv k) (orders st)) n)
    with (s := st0) as [k [Hk [_ Hf]]].
  - intros i st Hi [Hseen Hord]. unfold rung_body, seen_before in *.
    assert (Hmono : Forall (from_rung s pr lv (Datatypes.S i)) (orders st)).
    { eapply Forall_impl; [| exact Hord].
      intros o Ho Es. destruct (Ho Es) as [i' [Hi' R]]. exists i'. split; [lia | exact R]. }
    destruct (rung_step_stepped b mid su s (pr i) (lv i) st)
      as [Hskip -> | F N P -> | o F N P _ Z ->].
    + split; [| exact Hmono].
      intros j Hj Fj. destruct (Nat.eq_dec j i) as [-> | Hne].
      * destruct Hskip; congruence.
      * apply Hseen; [lia | exact Fj].
    + split; [| exact Hmono].
      intros j Hj Fj. rewrite P. simpl. destruct (Nat.eq_dec j i) as [-> | Hne].
      * rewrite (proj2 (Qeq_bool_iff _ _)); reflexivity.
      * rewrite (Hseen j); [apply orb_true_r | lia | exact Fj].
    + split.
      * intros j Hj Fj. rewrite P. simpl. destruct (Nat.eq_dec j i) as [-> | Hne].
        -- rewrite (proj2 (Qeq_bool_iff _ _)); reflexivity.
        -- rewrite (Hseen j); [apply orb_true_r | lia | exact Fj].
      * apply Forall_app. split; [exact Hmono |]. constructor; [| constructor].
        intros _. destruct (sized_order_fields _ _ _ _ _ _ Z) as [_ [Ep El]].
        exists i. repeat split; [lia | exact El | exact Ep |].
        intros j Hj E.
        assert (Fj : side_filter b mid s (pr j) = true) by now rewrite E.
        pose proof (Hseen j Hj Fj) as Pj. rewrite E in Pj. congruence.
  - split; [intros j Hj; lia |].
    eapply Forall_impl; [| exact H0]. intros o Ho Es. contradiction.
  - eapply Forall_impl; [| exact Hf].
    intros o Ho Es. destruct (Ho Es) as [i' [Hi' R]]. exists i'. split; [lia | exact R].
Qed.

  (** The loop only appends orders of its own side. *)
Lemma loop_keeps (P : grid_order -> Prop) (xs : list nat) (st0 : grid_state) :
    (forall o, g_side o = s -> P o) ->
    Forall P (orders st0) ->
    Forall P (orders (for_each (rung_body b mid su s pr lv) xs st0)).
Proof.
    intros HP. apply for_each_inv with (I := fun st => Forall P (orders st)).
    intros i st _ Hst. unfold rung_body.
    destruct (rung_step_stepped b mid su s (pr i) (lv i) st)
      as [_ -> | _ _ _ -> | o _ _ _ _ Z ->]; try exact Hst.
    apply Forall_app. split; [exact Hst |]. constructor; [| constructor].
    apply HP. now destruct (sized_order_fields _ _ _ _ _ _ Z).
Qed.
End OneLoop.

Lemma generate_first b mid :
  Forall (fun o => buy_rung b mid o /\ sell_rung b mid o)
         (generate_range_grid_orders b mid).
Proof.
  unfold generate_range_grid_orders.
  destruct (Qeq_bool _ 0); [constructor |].
  set (su := calculate_order_size b mid).
  set (st1 := for_each (buy_body b mid su (buy_base b mid)) _ _).
  assert (E1 : st1 = for_each (rung_body b mid su BUY (buy_price b (buy_base b mid))
                                         (fun i => (- Z.of_nat i)%Z))
                       (range (grid_levels (cfg b))) (mk_grid_state [] [])).
  { apply for_each_ext. intros. apply buy_body_step. }
  rewrite (for_each_ext _ (rung_body b mid su SELL (sell_price b (sell_base b mid))
                                     Z.of_nat))
    by (intros; apply sell_body_step).
  assert (B1 : Forall (buy_rung b mid) (orders st1)).
  { rewrite E1. apply loop_first. constructor. }
  assert (B2 : Forall (fun o => g_side o <> SELL) (orders st1)).
  { rewrite E1. apply loop_keeps; [| constructor]. intros o ->. discriminate. }
  apply Forall_and.
  - apply loop_keeps; [| exact B1].
    intros o Es Eb. rewrite Es in Eb. discriminate.
  - apply loop_first. exact B2.
Qed.

End TieBreak.

Import TieBreak.


(** C3. Position suppression: when the absolute position value at the
    mid-price has reached the cap, the order size is 0 and the ladder is
    empty. *)
Theorem position_suppression (b : bot) (mid_price : Q) :
  max_position_usd (cfg b) <= Qabs (position_yes b * mid_price) ->
  calculate_order_size b mid_price = 0 /\
  generate_range_grid_orders b mid_price = [].
Proof.
  intros H.
  assert (E : calculate_order_size b mid_price = 0).
  { unfold calculate_order_size, calculate_position_value.
    now rewrite (proj2 (Qle_bool_iff _ _) H). }
  split; [exact E |].
  unfold generate_range_grid_orders. now rewrite E.
Qed.

Lemma position_suppression_witness :
  max_position_usd (cfg full_bot) <= Qabs (position_yes full_bot * 0.5) /\
  calculate_order_size full_bot 0.5 = 0 /\ generate_range_grid_orders full_bot 0.5 = [].
Proof.
  split; [vm_compute; discriminate |].
  apply position_suppression. vm_compute. discriminate.
Defined.

(** C4. Range containment: every Buy rung of the ladder is priced in
    [[range_min, mid_price)] and every Sell rung in [(mid_price, range_max]],
    for every configuration, mid-price and state of the bot. *)
Theorem range_containment (b : bot) (mid_price : Q) :
  Forall (fun o =>
            match g_side o with
            | BUY => range_min (cfg b) <= g_price o /\ g_price o < mid_price
            | SELL => mid_price < g_price o /\ g_price o <= range_max (cfg b)
            end)
         (generate_range_grid_orders b mid_price).
Proof.
  eapply Forall_impl; [| apply generate_emitted].
  intros o [_ [F _]]. unfold side_filter in F.
  destruct (g_side o);
    apply andb_true_iff in F; destruct F as [F _];
    apply negb_true_iff, orb_false_iff in F; destruct F as [F1 F2];
    apply Qltb_ge in F1; apply Qle_bool_gt in F2; split; assumption.
Qed.




(** [round(x, 2)] moves [x] by at most half a cent. *)
Lemma py_round_2_near (x : Q) : Qabs (py_round_ndigits x 2 - x) <= 1#200.
Proof.
  unfold py_round_ndigits.
  assert (E : pow10 2 == 100) by reflexivity.
  pose proof (py_round_near (x * pow10 2)) as [N1 N2].
  set (k := inject_Z (py_round (x * pow10 2))) in *.
  rewrite E in N1, N2 |- *.
  assert (Ek : k / 100 * 100 == k) by (field; discriminate).
  apply Qabs_Qle_condition. split; nra.
Qed.

(** The size of a rung.  Every order of the ladder has the size
    [round(min(order_size_usd / price, max_order_size), 2)]: rungs whose
    unrounded size [order_size_usd / price] is below [min_order_size] are
    dropped, a larger size is capped at [max_order_size], and the result
    is rounded to two decimals, which moves it by at most 0.005. *)
Lemma order_size_rounded_gen (b : bot) (mid_price : Q) :
  Forall (fun o =>
            min_order_size (cfg b) <= order_size_usd (cfg b) / g_price o /\
            capped_size b o <= max_order_size (cfg b) /\
            g_size o = py_round_ndigits (capped_size b o) 2 /\
            Qabs (g_size o - capped_size b o) <= 1#200)
         (generate_range_grid_orders b mid_price).
Proof.
  eapply Forall_impl; [| apply generate_emitted].
  intros o [_ [_ Z]]. unfold sized_order in Z.
  destruct (Qltb (order_size_usd (cfg b) / g_price o) (min_order_size (cfg b))) eqn:Emin;
    [discriminate |].
  apply Qltb_ge in Emin.
  assert (Es : g_size o = py_round_ndigits (capped_size b o) 2).
  { unfold capped_size. injection Z as Z. rewrite <- Z at 1. reflexivity. }
  repeat split.
  - exact Emin.
  - unfold capped_size.
    destruct (Qltb (max_order_size (cfg b)) _) eqn:Emax; [lra |].
    now apply Qltb_ge in Emax.
  - exact Es.
  - rewrite Es. apply py_round_2_near.
Qed.





(** The ladder depends on the bot only through its configuration and the
    answers of the position ledger. *)
Lemma generate_ext (b b' : bot) (mid : Q) :
  cfg b = cfg b' ->
  calculate_order_size b mid = calculate_order_size b' mid ->
  (forall s, can_place_order b s mid = can_place_order b' s mid) ->
  generate_range_grid_orders b mid = generate_range_grid_orders b' mid.
Proof.
  intros Ec Es Ep.
  assert (HB : forall su base i st,
             buy_body b mid su base i st = buy_body b' mid su base i st).
  { intros. unfold buy_body, buy_price, sized_order. now rewrite Ec, Ep. }
  assert (HS : forall su base i st,
             sell_body b mid su base i st = sell_body b' mid su base i st).
  { intros. unfold sell_body, sell_price, sized_order. now rewrite Ec, Ep. }
  assert (Eb : buy_base b mid = buy_base b' mid) by (unfold buy_base; now rewrite Ec).
  assert (Ea : sell_base b mid = sell_base b' mid) by (unfold sell_base; now rewrite Ec).
  unfold generate_range_grid_orders.
  rewrite Es, Ec, Eb, Ea. destruct (Qeq_bool _ 0); [reflexivity |].
  f_equal.
  rewrite (for_each_ext _ _ _ _ (HB _ _)).
  apply for_each_ext. apply HS.
Qed.

(** C6 as stated fails on a bot that holds nothing, which is how every
    bot starts: the Buy rungs are the three of the example, and there is
    no Sell rung at all. *)
Lemma example_ladder_counterexample :
  init example_config = Some example_bot /\
  rung_prices BUY (generate_range_grid_orders example_bot 0.50)
  = map Qred [0.48; 0.46; 0.44] /\
  rung_prices SELL (generate_range_grid_orders example_bot 0.50) = [].
Proof. vm_compute. repeat split. Qed.

(** C6, as the code has it.  At mid-price 0.50 with spacing 0.02, three
    levels and the range [0.30, 0.70], a bot that holds some shares, worth
    less than the cap at that price, plans the Buy rungs 0.48, 0.46, 0.44
    and the Sell rungs 0.52, 0.54, 0.56. *)
Theorem example_ladder (b : bot) :
  cfg b = example_config ->
  0 < position_yes b ->
  position_yes b * 0.50 < max_position_usd example_config ->
  rung_prices BUY (generate_range_grid_orders b 0.50) = map Qred [0.48; 0.46; 0.44] /\
  rung_prices SELL (generate_range_grid_orders b 0.50) = map Qred [0.52; 0.54; 0.56].
Proof.
  intros Ec Hpos Hcap.
  assert (Hcap' : position_yes b * 0.50 < 100) by exact Hcap.
  rewrite (generate_ext b example_bot_long 0.50).
  - vm_compute. split; reflexivity.
  - exact Ec.
  - unfold calculate_order_size, calculate_position_value. rewrite Ec.
    assert (E : Qle_bool (max_position_usd example_config) (Qabs (position_yes b * 0.50)) = false).
    { apply Qle_bool_gt. rewrite Qabs_pos; [exact Hcap | nra]. }
    rewrite E. reflexivity.
  - intros s. unfold can_place_order, calculate_position_value. rewrite Ec.
    destruct s.
    + assert (E : Qle_bool (max_position_usd example_config) (position_yes b * 0.50) = false)
        by now apply Qle_bool_gt.
      rewrite E. reflexivity.
    + assert (E1 : Qle_bool (position_yes b) 0 = false) by now apply Qle_bool_gt.
      assert (E2 : Qle_bool (position_yes b * 0.50) (- max_position_usd example_config) = false).
      { apply Qle_bool_gt. assert (- max_position_usd example_config == -100) by reflexivity. nra. }
      rewrite E1, E2. reflexivity.
Qed.

Lemma example_ladder_witness :
  rung_prices BUY (generate_range_grid_orders example_bot_long 0.50)
  = map Qred [0.48; 0.46; 0.44] /\
  rung_prices SELL (generate_range_grid_orders example_bot_long 0.50)
  = map Qred [0.52; 0.54; 0.56].
Proof.
  apply (example_ladder example_bot_long); [reflexivity | reflexivity | reflexivity].
Defined.



(** ** Reconciliation *)

Module DictFacts.
Section Facts.
Context {V : Type}.
Implicit Types (d : Dict.t V) (k : string) (v : V).

Lemma get_app_fresh k v (pre rest : Dict.t V) :
  ~ In k (Dict.keys pre) -> Dict.get k (pre ++ (k, v) :: rest) = Some v.
Proof.
  induction pre as [| [k' v'] pre IH]; simpl; intros H.
  - now rewrite String.eqb_refl.
  - destruct (String.eqb_spec k k') as [-> | _]; [tauto | apply IH; tauto].
Qed.

Lemma get_None k d : Dict.get k d = None <-> ~ In k (Dict.keys d).
Proof.
  induction d as [| [k' v'] d IH]; simpl; [tauto |].
  destruct (String.eqb_spec k k') as [-> | Hne].
  - split; [discriminate | intros H; exfalso; apply H; now left].
  - rewrite IH. split; intros H; [intros [E | I]; [congruence | tauto] | tauto].
Qed.

Lemma del_fresh k d : ~ In k (Dict.keys d) -> Dict.del k d = d.
Proof.
  unfold Dict.del.
  induction d as [| [k' v'] d IH]; simpl; intros H; [reflexivity |].
  destruct (String.eqb_spec k k') as [-> | _]; simpl; [tauto |].
  rewrite IH; tauto.
Qed.

Lemma del_app k v (pre rest : Dict.t V) :
  ~ In k (Dict.keys pre) -> ~ In k (Dict.keys rest) ->
  Dict.del k (pre ++ (k, v) :: rest) = pre ++ rest.
Proof.
  intros H1 H2. unfold Dict.del. rewrite filter_app. simpl.
  rewrite String.eqb_refl. simpl.
  fold (Dict.del k pre). fold (Dict.del k rest).
  now rewrite !del_fresh.
Qed.

Lemma keys_filter_In (f : string -> bool) k d :
  In k (Dict.keys (filter (fun kv => f (fst kv)) d)) <-> In k (Dict.keys d) /\ f k = true.
Proof.
  unfold Dict.keys. rewrite !in_map_iff. split.
  - intros [[k' v] [<- H]]. apply filter_In in H. destruct H as [H1 H2].
    split; [| exact H2]. now exists (k', v).
  - intros [[[k' v] [<- H1]] H2]. exists (k', v). split; [reflexivity |].
    apply filter_In. now split.
Qed.

Lemma wf_filter (f : string * V -> bool) d : Dict.wf d -> Dict.wf (filter f d).
Proof.
  unfold Dict.wf, Dict.keys.
  induction d as [| [k v] d IH]; simpl; intros H; [constructor |].
  inversion H as [| ? ? Hk Hd]; subst.
  destruct (f (k, v)); simpl; [| now apply IH].
  constructor; [| now apply IH].
  intros Hin. apply Hk. apply in_map_iff in Hin. destruct Hin as [kv [E Hin]].
  apply filter_In in Hin. apply in_map_iff. exists kv. tauto.
Qed.

Lemma keys_set k v d :
  Dict.keys (Dict.set k v d)
  = if Dict.mem k d then Dict.keys d else Dict.keys d ++ [k].
Proof.
  unfold Dict.mem.
  induction d as [| [k' v'] d IH]; simpl; [reflexivity |].
  destruct (String.eqb_spec k k') as [-> | Hne]; simpl; [reflexivity |].
  rewrite IH. now destruct (Dict.get k d).
Qed.

Lemma wf_set k v d : Dict.wf d -> Dict.wf (Dict.set k v d).
Proof.
      unfold Dict.wf. rewrite keys_set. unfold Dict.mem.
      destruct (Dict.get k d) eqn:E; [tauto |].
      intros H. apply get_None in E.
      apply NoDup_app; [exact H | constructor; [intros [] | constructor] |].
      intros x Hx [<- | []]. contradiction.
Qed.
End Facts.
End DictFacts.

Import DictFacts.



Module ReconcileFacts.

Lemma open_order_ids_map (open_orders : list exchange_order) :
  open_order_ids open_orders = map id open_orders.
Proof.
  unfold open_order_ids.
  enough (G : forall acc, fold_left (fun ids o => ids ++ [id o]) open_orders acc
                          = acc ++ map id open_orders) by apply (G []).
  induction open_orders as [| o l IH]; intros acc; simpl.
  - now rewrite app_nil_r.
  - rewrite IH, <- app_assoc. reflexivity.
Qed.

Lemma str_in_In (x : string) (l : list string) : str_in x l = true <-> In x l.
Proof.
  unfold str_in. rewrite existsb_exists. split.
  - intros [y [Hy E]]. apply String.eqb_eq in E. now subst.
  - intros H. exists x. split; [exact H | apply String.eqb_refl].
Qed.

Lemma NoDup_keys_app_cons {V : Type} (pre rest : Dict.t V) (k : string) (v : V) :
  NoDup (Dict.keys (pre ++ (k, v) :: rest)) ->
  ~ In k (Dict.keys pre) /\ ~ In k (Dict.keys rest) /\ NoDup (Dict.keys (pre ++ rest)).
Proof.
  unfold Dict.keys. rewrite !map_app. simpl. intros H.
  pose proof (NoDup_remove_1 _ _ _ H) as H1.
  pose proof (NoDup_remove_2 _ _ _ H) as H2.
  rewrite in_app_iff in H2. tauto.
Qed.

Lemma fill_body_open ids b filled k :
  str_in k ids = true -> fill_body ids (b, filled) k = (b, filled).
Proof. intros H. unfold fill_body. now rewrite H. Qed.

Lemma fill_body_gone ids b filled k v (pre rest : Dict.t order) :
  str_in k ids = false ->
  active_orders b = pre ++ (k, v) :: rest ->
  ~ In k (Dict.keys pre) -> ~ In k (Dict.keys rest) ->
  fill_body ids (b, filled) k
  = (mk_bot (cfg b) (pre ++ rest)
            (apply_position (position_yes b) v)
            (position_no b) (realized_pnl b)
            (apply_volume (total_volume b) v),
     filled ++ [fill_of v]).
Proof.
  intros H Hact Hpre Hrest. unfold fill_body. rewrite H. simpl.
  rewrite Hact, (get_app_fresh k v pre rest Hpre).
  unfold apply_position, apply_volume, fill_of.
  destruct (side_of v); simpl; rewrite Hact, (del_app k v pre rest Hpre Hrest);
    reflexivity.
Qed.

(** The loop over the snapshot of keys, in closed form: [pre] holds the
    entries already passed and kept, [rest] those still to come. *)
Lemma fold_fill_body (ids : list string) (rest pre : Dict.t order)
      (b : bot) (filled : list filled_order) :
  active_orders b = pre ++ rest ->
  NoDup (Dict.keys (pre ++ rest)) ->
  fold_left (fill_body ids) (Dict.keys rest) (b, filled)
  = (mk_bot (cfg b)
            (pre ++ filter (fun kv => str_in (fst kv) ids) rest)
            (fold_left apply_position
                       (map snd (filter (fun kv => negb (str_in (fst kv) ids)) rest))
                       (position_yes b))
            (position_no b) (realized_pnl b)
            (fold_left apply_volume
                       (map snd (filter (fun kv => negb (str_in (fst kv) ids)) rest))
                       (total_volume b)),
     filled ++ map fill_of
                   (map snd (filter (fun kv => negb (str_in (fst kv) ids)) rest))).
Proof.
  revert pre b filled.
  induction rest as [| [k v] rest IH]; intros pre b filled Hact Hnd.
  - simpl. rewrite !app_nil_r. rewrite app_nil_r in Hact. rewrite <- Hact.
    now destruct b.
  - destruct (NoDup_keys_app_cons _ _ _ _ Hnd) as [Hpre [Hrest Hnd']].
    change (Dict.keys ((k, v) :: rest)) with (k :: Dict.keys rest).
    cbn [fold_left filter fst].
    destruct (str_in k ids) eqn:Hopen; cbn [negb map snd fold_left].
    + rewrite (fill_body_open _ _ _ _ Hopen).
      rewrite (IH (pre ++ [(k, v)]) b filled); rewrite <- ?app_assoc; auto.
    + rewrite (fill_body_gone _ _ _ _ _ _ _ Hopen Hact Hpre Hrest).
      rewrite (IH pre); [| reflexivity | exact Hnd'].
      cbn [cfg position_yes position_no realized_pnl total_volume].
      rewrite <- app_assoc. reflexivity.
Qed.

Lemma fold_apply_position (l : list order) (p : Q) :
  fold_left apply_position l p == p + Qsum (map signed_size l).
Proof.
  revert p. induction l as [| o l IH]; intros p; simpl; [lra |].
  rewrite IH. unfold apply_position, signed_size. destruct (side_of o); lra.
Qed.

Lemma fold_apply_volume (l : list order) (v : Q) :
  fold_left apply_volume l v == v + Qsum (map order_value l).
Proof.
  revert v. induction l as [| o l IH]; intros v; simpl; [lra |].
  rewrite IH. unfold apply_volume, order_value. lra.
Qed.

(** [update_active_orders] in closed form. *)
Lemma update_active_orders_eq (b : bot) (open_orders : list exchange_order) :
  Dict.wf (active_orders b) ->
  update_active_orders b open_orders
  = (mk_bot (cfg b) (still_open b open_orders)
            (fold_left apply_position (map snd (disappeared b open_orders)) (position_yes b))
            (position_no b) (realized_pnl b)
            (fold_left apply_volume (map snd (disappeared b open_orders)) (total_volume b)),
     map fill_of (map snd (disappeared b open_orders))).
Proof.
  intros Hwf. unfold update_active_orders.
  apply (fold_fill_body (open_order_ids open_orders) (active_orders b) [] b []);
    [reflexivity | exact Hwf].
Qed.

End ReconcileFacts.

Import ReconcileFacts.



(** C1, as the code has it.  After [update_active_orders] the index holds
    exactly the entries it held before whose id the exchange still lists,
    unchanged and in the same order: the tracked ids are the former tracked
    ids that are open.  (An open order the bot never tracked is not
    adopted.) *)
Theorem reconcile_keeps_listed (b : bot) (open_orders : list exchange_order) :
  Dict.wf (active_orders b) ->
  active_orders (fst (update_active_orders b open_orders)) = still_open b open_orders /\
  forall k,
    In k (Dict.keys (active_orders (fst (update_active_orders b open_orders))))
    <-> In k (Dict.keys (active_orders b)) /\ In k (open_order_ids open_orders).
Proof.
  intros Hwf. rewrite (update_active_orders_eq b open_orders Hwf). simpl.
  split; [reflexivity |].
  intros k. unfold still_open.
  rewrite (keys_filter_In (fun k => str_in k (open_order_ids open_orders))).
  now rewrite str_in_In.
Qed.

Lemma reconcile_keeps_listed_witness :
  Dict.wf (active_orders tracked_buy_bot) /\
  active_orders (fst (update_active_orders tracked_buy_bot [mk_exchange_order "0xb1"]))
  = still_open tracked_buy_bot [mk_exchange_order "0xb1"].
Proof.
  assert (W : Dict.wf (active_orders tracked_buy_bot)).
  { unfold Dict.wf. simpl. constructor; [intros [] | constructor]. }
  split; [exact W |].
  apply (reconcile_keeps_listed tracked_buy_bot [mk_exchange_order "0xb1"] W).
Defined.

(** C1 as stated fails: a fresh bot tracks nothing, the exchange lists an
    order (placed by hand, or before a restart), and after the
    reconciliation the bot still tracks nothing. *)
Lemma reconcile_completeness_counterexample :
  exists k,
    In k (open_order_ids [mk_exchange_order "0xa1"]) /\
    ~ In k (Dict.keys (active_orders
              (fst (update_active_orders example_bot [mk_exchange_order "0xa1"])))).
Proof.
  exists "0xa1"%string. split; [now left | intros []].
Qed.

(** What [update_active_orders] does with the orders that disappeared:
    every tracked order the exchange no longer
    lists yields one fill with its side, price and size (and value
    size * price), in the order of the index; it is gone from the index
    afterwards; the held size has grown by the sizes of the disappeared Buy
    orders and shrunk by those of the disappeared Sell orders; the volume
    has grown by the values size * price. *)
Lemma fill_sign_correctness_gen (b : bot) (open_orders : list exchange_order) :
  Dict.wf (active_orders b) ->
  (forall k o, In (k, o) (disappeared b open_orders)
               <-> In (k, o) (active_orders b) /\ ~ In k (open_order_ids open_orders)) /\
  snd (update_active_orders b open_orders)
  = map fill_of (map snd (disappeared b open_orders)) /\
  (forall k o, In (k, o) (disappeared b open_orders) ->
               Dict.get k (active_orders (fst (update_active_orders b open_orders))) = None) /\
  position_yes (fst (update_active_orders b open_orders))
  == position_yes b + Qsum (map signed_size (map snd (disappeared b open_orders))) /\
  total_volume (fst (update_active_orders b open_orders))
  == total_volume b + Qsum (map order_value (map snd (disappeared b open_orders))).
Proof.
  intros Hwf.
  assert (Hin : forall k o, In (k, o) (disappeared b open_orders)
               <-> In (k, o) (active_orders b) /\ ~ In k (open_order_ids open_orders)).
  { intros k o. unfold disappeared. rewrite filter_In. simpl.
    rewrite negb_true_iff, <- str_in_In. destruct (str_in k _); intuition congruence. }
  rewrite (update_active_orders_eq b open_orders Hwf). simpl.
  split; [exact Hin |].
  split; [reflexivity |].
  split; [| split; [apply fold_apply_position | apply fold_apply_volume]].
  intros k o H. apply get_None. unfold still_open.
  rewrite (keys_filter_In (fun k => str_in k (open_order_ids open_orders))).
  rewrite str_in_In. apply Hin in H. tauto.
Qed.

(** C2. Fill sign correctness: every tracked order the exchange no longer
    lists yields one fill with its side, price and size (and value
    size * price), in the order of the index; it is gone from the index
    afterwards; the held size has grown by the sizes of the disappeared Buy
    orders and shrunk by those of the disappeared Sell orders; the volume
    has grown by the values size * price. *)
Theorem fill_sign_correctness (b : bot) (open_orders : list exchange_order) :
  Dict.wf (active_orders b) ->
  (forall k o, In (k, o) (disappeared b open_orders)
               <-> In (k, o) (active_orders b) /\ ~ In k (open_order_ids open_orders)) /\
  snd (update_active_orders b open_orders)
  = map fill_of (map snd (disappeared b open_orders)) /\
  (forall k o, In (k, o) (disappeared b open_orders) ->
               Dict.get k (active_orders (fst (update_active_orders b open_orders))) = None) /\
  position_yes (fst (update_active_orders b open_orders))
  == position_yes b + Qsum (map signed_size (map snd (disappeared b open_orders))) /\
  total_volume (fst (update_active_orders b open_orders))
  == total_volume b + Qsum (map order_value (map snd (disappeared b open_orders))).
Proof. apply fill_sign_correctness_gen. Qed.

(** The example of the specification: the tracked Buy order {0.48, 20}
    is no longer listed. *)
Lemma fill_sign_correctness_witness :
  Dict.wf (active_orders tracked_buy_bot) /\
  snd (update_active_orders tracked_buy_bot []) = [mk_filled BUY 0.48 20 (20 * 0.48)] /\
  active_orders (fst (update_active_orders tracked_buy_bot [])) = [] /\
  position_yes (fst (update_active_orders tracked_buy_bot [])) == 0 + 20.
Proof.
  assert (W : Dict.wf (active_orders tracked_buy_bot)).
  { unfold Dict.wf. simpl. constructor; [intros [] | constructor]. }
  destruct (fill_sign_correctness tracked_buy_bot [] W) as [_ [F [_ [P _]]]].
  split; [exact W |].
  split; [exact F |].
  split; [reflexivity |].
  rewrite P. reflexivity.
Defined.

(** C10. The position "from the API" is the tracked pair itself, so the
    refresh step of the cycle changes nothing. *)
Theorem position_refresh_identity (b : bot) :
  get_current_positions b = (position_yes b, position_no b) /\
  refresh_position b = b.
Proof.
  split; [reflexivity |]. now destruct b.
Qed.



(** ** The held size over the operations of the bot *)

Module Frames.

Lemma place_order_position b s p sz post now :
  position_yes (fst (place_order b s p sz post now)) = position_yes b.
Proof.
  unfold place_order.
  apply for_each_inv with (I := fun st => position_yes (fst st) = position_yes b);
    [| reflexivity].
  intros attempt [b1 r] _ H. simpl in H. unfold place_order_body. simpl.
  destruct (Qle_bool p 0 || Qle_bool 1 p); [exact H |].
  destruct (Qle_bool sz 0); [exact H |].
  destruct (post attempt); exact H.
Qed.

Lemma cancel_order_position b k r :
  position_yes (cancel_order b k r) = position_yes b.
Proof.
  unfold cancel_order. destruct r; try reflexivity;
    destruct (Dict.mem k (active_orders b)); reflexivity.
Qed.

Lemma cancel_all_orders_position b open_orders :
  position_yes (cancel_all_orders b open_orders) = position_yes b.
Proof. destruct open_orders; reflexivity. Qed.

Lemma place_order_wf b s p sz post now :
  Dict.wf (active_orders b) ->
  Dict.wf (active_orders (fst (place_order b s p sz post now))).
Proof.
  intros Hwf. unfold place_order.
  apply for_each_inv with (I := fun st => Dict.wf (active_orders (fst st)));
    [| exact Hwf].
  intros attempt [b1 r] _ H. simpl in H. unfold place_order_body. simpl.
  destruct (Qle_bool p 0 || Qle_bool 1 p); [exact H |].
  destruct (Qle_bool sz 0); [exact H |].
  destruct (post attempt); [| exact H].
  simpl. now apply wf_set.
Qed.

Lemma place_all_wf todo : forall b k post clock,
  Dict.wf (active_orders b) ->
  Dict.wf (active_orders (place_all b todo k post clock)).
Proof.
  induction todo as [| o todo IH]; intros b k post clock Hwf; simpl; [exact Hwf |].
  apply IH. now apply place_order_wf.
Qed.

Lemma place_all_position todo : forall b k post clock,
  position_yes (place_all b todo k post clock) = position_yes b.
Proof.
  induction todo as [| o todo IH]; intros b k post clock; simpl; [reflexivity |].
  rewrite IH. apply place_order_position.
Qed.

Lemma update_active_orders_wf b open_orders :
  Dict.wf (active_orders b) ->
  Dict.wf (active_orders (fst (update_active_orders b open_orders))).
Proof.
  intros Hwf. rewrite (update_active_orders_eq b open_orders Hwf). simpl.
  now apply wf_filter.
Qed.

(** The keys of the index stay pairwise distinct over a cycle: the
    hypothesis of the reconciliation results holds of every reachable
    state. *)
Lemma run_cycle_wf b e :
  Dict.wf (active_orders b) -> Dict.wf (active_orders (run_cycle b e)).
Proof.
  intros Hwf. unfold run_cycle.
  destruct (current_price e) as [mid |]; [| exact Hwf].
  destruct (Qle_bool mid 0 || Qle_bool 1 mid); [exact Hwf |].
  apply place_all_wf.
  apply (update_active_orders_wf b (open_orders e)) in Hwf.
  now destruct (fst (update_active_orders b (open_orders e))).
Qed.

End Frames.

Import Frames.


(** C7 as stated fails: from the initial state the held size is 20.83
    after the second cycle and -34.78 after the third, when the three Sell
    orders (19.23 + 18.52 + 17.86 shares, more than the bot held) are no
    longer listed. *)
Lemma held_size_counterexample :
  init example_config = Some example_bot /\
  position_yes after_2 == 20.83 /\
  Dict.keys (active_orders after_2) = ["b2"; "b3"; "b4"; "s1"; "s2"; "s3"]%string /\
  position_yes after_3 == -34.78 /\
  ~ 0 <= position_yes after_3.
Proof.
  vm_compute. repeat split; try reflexivity. intros H. apply H. reflexivity.
Qed.

(** C7, as the code has it.  Placing and cancelling orders never change the
    held size, so they keep it non-negative.  The reconciliation moves it by
    the signed sizes of the orders that disappeared, and keeps it
    non-negative exactly when the disappeared Sell orders are covered by the
    held size plus the disappeared Buy orders. *)
Theorem held_size_nonneg (b : bot) :
  Dict.wf (active_orders b) ->
  0 <= position_yes b ->
  (forall s p sz post now, 0 <= position_yes (fst (place_order b s p sz post now))) /\
  (forall k r, 0 <= position_yes (cancel_order b k r)) /\
  (forall open_orders, 0 <= position_yes (cancel_all_orders b open_orders)) /\
  (forall open_orders,
      0 <= position_yes (fst (update_active_orders b open_orders))
      <-> 0 <= position_yes b
               + Qsum (map signed_size (map snd (disappeared b open_orders)))).
Proof.
  intros Hwf Hpos.
  split; [intros; now rewrite place_order_position |].
  split; [intros; now rewrite cancel_order_position |].
  split; [intros; now rewrite cancel_all_orders_position |].
  intros open_orders.
  destruct (fill_sign_correctness_gen b open_orders Hwf) as [_ [_ [_ [P _]]]].
  now rewrite P.
Qed.

Lemma held_size_nonneg_witness :
  Dict.wf (active_orders tracked_buy_bot) /\
  0 <= position_yes tracked_buy_bot /\
  0 <= position_yes (fst (update_active_orders tracked_buy_bot [])).
Proof.
  assert (W : Dict.wf (active_orders tracked_buy_bot)).
  { unfold Dict.wf. simpl. constructor; [intros [] | constructor]. }
  assert (P : 0 <= position_yes tracked_buy_bot) by (vm_compute; discriminate).
  split; [exact W |]. split; [exact P |].
  destruct (held_size_nonneg tracked_buy_bot W P) as [_ [_ [_ H]]].
  apply H. vm_compute. discriminate.
Defined.



(** ** More on rounding *)

Module RoundMore.

Lemma py_round_mono (x y : Q) : x <= y -> (py_round x <= py_round y)%Z.
Proof.
  intros H. destruct (Z_le_gt_dec (py_round x) (py_round y)) as [L | G]; [exact L |].
  pose proof (py_round_near x) as [X1 _]. pose proof (py_round_near y) as [_ Y2].
  assert (G' : inject_Z (py_round y) + 1 <= inject_Z (py_round x)).
  { rewrite <- inject_Z_succ, <- Zle_Qle. lia. }
  assert (E : x == y) by lra.
  rewrite (py_round_comp _ _ E) in G. lia.
Qed.

Lemma round_half_up_mono (x y : Q) : x <= y -> (round_half_up x <= round_half_up y)%Z.
Proof.
  intros H.
  destruct (Z_le_gt_dec (round_half_up x) (round_half_up y)) as [L | G]; [exact L |].
  pose proof (round_half_up_near x) as [X1 _].
  pose proof (round_half_up_near y) as [_ Y2].
  assert (G' : inject_Z (round_half_up y) + 1 <= inject_Z (round_half_up x)).
  { rewrite <- inject_Z_succ, <- Zle_Qle. lia. }
  assert (E : x == y) by lra.
  rewrite (round_half_up_comp _ _ E) in G. lia.
Qed.

Lemma quantize_mono (x y : Q) (n : nat) : x <= y -> quantize x n <= quantize y n.
Proof.
  intros H. unfold quantize. pose proof (pow10_pos n) as HT.
  assert (M : inject_Z (round_half_up (x * pow10 n))
              <= inject_Z (round_half_up (y * pow10 n))).
  { rewrite <- Zle_Qle. apply round_half_up_mono. nra. }
  apply Qmult_le_compat_r; [exact M |].
  apply Qlt_le_weak, Qinv_lt_0_compat, HT.
Qed.

(** A multiple of [10^-n] is left alone by the quantization to [n] places. *)
Lemma quantize_exact (x : Q) (n : nat) (m : Z) :
  x * pow10 n == inject_Z m -> quantize x n == x.
Proof.
  intros H. unfold quantize. pose proof (pow10_pos n) as HT.
  rewrite (round_half_up_comp _ _ H), round_half_up_Z, <- H.
  field. lra.
Qed.

End RoundMore.

Import RoundMore.

(** Rounding to the grid, on ordered prices. *)
Lemma round_price_mono (p q s : Q) (n : nat) :
  0 < s -> p <= q -> round_price p n s <= round_price q n s.
Proof.
  intros Hs H. unfold round_price. apply quantize_mono.
  assert (D : p / s <= q / s).
  { apply Qmult_le_compat_r; [exact H |]. apply Qlt_le_weak, Qinv_lt_0_compat, Hs. }
  apply py_round_mono in D. rewrite Zle_Qle in D. nra.
Qed.







(** ** More on the ladder *)

Module LadderMore.

Lemma loop_count (b : bot) (mid su : Q) (s s' : side) (pr : nat -> Q) (lv : nat -> Z)
      (xs : list nat) :
  forall st0,
    (length (filter (is_side s') (orders (for_each (rung_body b mid su s pr lv) xs st0)))
     <= length (filter (is_side s') (orders st0))
        + (if side_eqb s s' then length xs else 0))%nat.
Proof.
  induction xs as [| i xs IH]; intros st0; simpl; [destruct (side_eqb s s'); lia |].
  assert (H1 : (length (filter (is_side s')
                         (orders (ctl_state (rung_body b mid su s pr lv i st0))))
                <= length (filter (is_side s') (orders st0))
                   + (if side_eqb s s' then 1 else 0))%nat).
  { unfold rung_body.
    destruct (rung_step_stepped b mid su s (pr i) (lv i) st0)
      as [_ -> | _ _ _ -> | o _ _ _ _ Z ->]; try (destruct (side_eqb s s'); lia).
    destruct (sized_order_fields _ _ _ _ _ _ Z) as [Es _].
    rewrite filter_app, length_app. simpl. unfold is_side at 2. rewrite Es.
    destruct (side_eqb s s'); simpl; lia. }
  destruct (rung_body b mid su s pr lv i st0) as [st1 | st1]; simpl in H1.
  - specialize (IH st1). destruct (side_eqb s s'); lia.
  - destruct (side_eqb s s'); lia.
Qed.

Lemma generate_unfold (b : bot) (mid : Q) :
  generate_range_grid_orders b mid
  = if Qeq_bool (calculate_order_size b mid) 0 then []
    else orders
           (for_each (rung_body b mid (calculate_order_size b mid) SELL
                                (sell_price b (sell_base b mid)) Z.of_nat)
                     (range (grid_levels (cfg b)))
                     (for_each (rung_body b mid (calculate_order_size b mid) BUY
                                          (buy_price b (buy_base b mid))
                                          (fun i => (- Z.of_nat i)%Z))
                               (range (grid_levels (cfg b)))
                               (mk_grid_state [] []))).
Proof.
  unfold generate_range_grid_orders. destruct (Qeq_bool _ 0); [reflexivity |].
  f_equal.
  rewrite (for_each_ext (buy_body b mid _ _)
                        (rung_body b mid (calculate_order_size b mid) BUY
                                   (buy_price b (buy_base b mid))
                                   (fun i => (- Z.of_nat i)%Z)))
    by (intros; apply buy_body_step).
  apply for_each_ext. intros; apply sell_body_step.
Qed.

Lemma emitted_price_bounds b mid o :
  emitted b mid o ->
  match g_side o with
  | BUY => 1#100 <= g_price o /\ g_price o < mid
  | SELL => mid < g_price o /\ g_price o <= 99#100
  end.
Proof.
  intros [_ [F _]]. unfold side_filter in F.
  destruct (g_side o);
    apply andb_true_iff in F; destruct F as [F F3];
    apply negb_true_iff, orb_false_iff in F; destruct F as [F1 F2];
    apply negb_true_iff in F3;
    apply Qltb_ge in F3; apply Qle_bool_gt in F2; split; assumption.
Qed.

End LadderMore.

Import LadderMore.

(** Counting the rungs: neither loop emits more than one order per level. *)
Lemma ladder_side_count_gen (b : bot) (mid_price : Q) (s : side) :
  (length (filter (is_side s) (generate_range_grid_orders b mid_price))
   <= grid_levels (cfg b))%nat.
Proof.
  rewrite generate_unfold. destruct (Qeq_bool _ 0); [simpl; lia |].
  pose proof (loop_count b mid_price (calculate_order_size b mid_price) SELL s
                (sell_price b (sell_base b mid_price)) Z.of_nat
                (range (grid_levels (cfg b)))) as HS.
  pose proof (loop_count b mid_price (calculate_order_size b mid_price) BUY s
                (buy_price b (buy_base b mid_price)) (fun i => (- Z.of_nat i)%Z)
                (range (grid_levels (cfg b))) (mk_grid_state [] [])) as HB.
  match goal with
  | |- (length (filter _ (orders (for_each _ _ ?st))) <= _)%nat => specialize (HS st)
  end.
  unfold range in *. rewrite length_seq in *. simpl in HB.
  destruct s; simpl in *; lia.
Qed.

(** X3. The ladder never has more than [grid_levels] orders on a side. *)
Theorem ladder_side_count (b : bot) (mid_price : Q) (s : side) :
  (length (filter (is_side s) (generate_range_grid_orders b mid_price))
   <= grid_levels (cfg b))%nat.
Proof. apply ladder_side_count_gen. Qed.

(** X4. The ladder lists its Buy orders first and its Sell orders after them,
    which is the order in which a cycle places them. *)
Theorem ladder_buys_then_sells (b : bot) (mid_price : Q) :
  exists buys sells,
    generate_range_grid_orders b mid_price = buys ++ sells /\
    Forall (fun o => g_side o = BUY) buys /\
    Forall (fun o => g_side o = SELL) sells.
Proof.
  rewrite generate_unfold. destruct (Qeq_bool _ 0).
  { exists [], []. repeat split; constructor. }
  set (st1 := for_each (rung_body b mid_price _ BUY _ _) _ _).
  assert (B : Forall (fun o => g_side o = BUY) (orders st1)).
  { apply loop_keeps; [tauto | constructor]. }
  exists (orders st1).
  apply for_each_inv
    with (I := fun st => exists sells, orders st = orders st1 ++ sells /\
                                       Forall (fun o => g_side o = BUY) (orders st1) /\
                                       Forall (fun o => g_side o = SELL) sells).
  - intros i st _ [sells [E [_ S]]]. unfold rung_body.
    destruct (rung_step_stepped b mid_price (calculate_order_size b mid_price) SELL
                (sell_price b (sell_base b mid_price) i) (Z.of_nat i) st)
      as [_ -> | _ _ _ -> | o _ _ _ _ Z ->].
    + now exists sells.
    + now exists sells.
    + exists (sells ++ [o]). rewrite E, app_assoc. split; [reflexivity |].
      split; [exact B |]. apply Forall_app. split; [exact S |].
      constructor; [| constructor]. now destruct (sized_order_fields _ _ _ _ _ _ Z).
  - exists []. rewrite app_nil_r. repeat split; [exact B | constructor].
Qed.

(** Price bounds of the rungs.  At a mid-price between 0 and 1, every price of the
    ladder is strictly between 0 and 1, whatever the configured range: the
    price test of [place_order] never turns a rung down. *)
Lemma ladder_prices_tradable_gen (b : bot) (mid_price : Q) :
  valid_mid_price mid_price = true ->
  Forall (fun o => 0 < g_price o /\ g_price o < 1 /\
                   Qle_bool (g_price o) 0 || Qle_bool 1 (g_price o) = false)
         (generate_range_grid_orders b mid_price).
Proof.
  intros V. unfold valid_mid_price in V. apply andb_true_iff in V.
  destruct V as [V0 V1]. apply Qltb_lt in V0. apply Qltb_lt in V1.
  eapply Forall_impl; [| apply generate_emitted].
  intros o E. apply emitted_price_bounds in E.
  assert (R : 0 < g_price o /\ g_price o < 1).
  { destruct (g_side o); destruct E as [E1 E2]; split; lra. }
  destruct R as [R1 R2]. repeat split; try assumption.
  apply orb_false_iff. split; apply Qle_bool_gt; lra.
Qed.

(** X5. At a mid-price the cycle accepts (between 0 and 1), every price of the
    ladder is strictly between 0 and 1, whatever the configured range: the
    price test of [place_order] never turns a rung down. *)
Theorem ladder_prices_tradable (b : bot) (mid_price : Q) :
  valid_mid_price mid_price = true ->
  Forall (fun o => 0 < g_price o /\ g_price o < 1 /\
                   Qle_bool (g_price o) 0 || Qle_bool 1 (g_price o) = false)
         (generate_range_grid_orders b mid_price).
Proof. apply ladder_prices_tradable_gen. Qed.

Lemma ladder_prices_tradable_witness :
  valid_mid_price 0.50 = true /\
  Forall (fun o => 0 < g_price o /\ g_price o < 1 /\
                   Qle_bool (g_price o) 0 || Qle_bool 1 (g_price o) = false)
         (generate_range_grid_orders example_bot_long 0.50).
Proof.
  split; [reflexivity |]. apply ladder_prices_tradable. reflexivity.
Defined.



(** X6. Whenever the ladder is planned at all (the order size is not 0), the
    position test lets every Buy rung through, and lets a Sell rung through
    exactly when the bot holds shares: the position-limit [break] of the Buy
    loop and the short-limit test of the Sell loop never fire there. *)
Theorem ladder_position_tests (b : bot) (mid_price : Q) :
  Qeq_bool (calculate_order_size b mid_price) 0 = false ->
  can_place_order b BUY mid_price = true /\
  can_place_order b SELL mid_price = negb (Qle_bool (position_yes b) 0).
Proof.
  intros H.
  destruct (calculate_order_size_cases b mid_price) as [Z | [A _]].
  { rewrite Z in H. discriminate. }
  assert (A1 : position_yes b * mid_price < max_position_usd (cfg b)).
  { pose proof (Qle_Qabs (position_yes b * mid_price)). lra. }
  assert (A2 : - max_position_usd (cfg b) < position_yes b * mid_price).
  { pose proof (Qle_Qabs (- (position_yes b * mid_price))) as L.
    rewrite Qabs_opp in L. lra. }
  unfold can_place_order, calculate_position_value.
  rewrite (proj2 (Qle_bool_gt _ _) A1), (proj2 (Qle_bool_gt _ _) A2).
  split; [reflexivity |]. now destruct (Qle_bool (position_yes b) 0).
Qed.

Lemma ladder_position_tests_witness :
  Qeq_bool (calculate_order_size example_bot 0.50) 0 = false /\
  can_place_order example_bot BUY 0.50 = true /\
  can_place_order example_bot SELL 0.50 = negb (Qle_bool (position_yes example_bot) 0).
Proof.
  split; [reflexivity |]. apply ladder_position_tests. reflexivity.
Defined.

(** X7. A bot that holds no shares plans no Sell order. *)
Theorem no_sell_without_inventory (b : bot) (mid_price : Q) :
  position_yes b <= 0 ->
  Forall (fun o => g_side o = BUY) (generate_range_grid_orders b mid_price).
Proof.
  intros H. eapply Forall_impl; [| apply generate_emitted].
  intros o [C _]. destruct (g_side o); [reflexivity | exfalso].
  unfold can_place_order in C.
  rewrite (proj2 (Qle_bool_iff _ _) H) in C. discriminate.
Qed.

Lemma no_sell_without_inventory_witness :
  position_yes example_bot <= 0 /\
  Forall (fun o => g_side o = BUY) (generate_range_grid_orders example_bot 0.50).
Proof.
  split; [discriminate |]. apply no_sell_without_inventory. discriminate.
Defined.

(** X8. The target ladder is planned from the configuration, the held size and
    the mid-price alone: the orders already tracked, the volume and the
    other counters play no part in it. *)
Theorem ladder_ignores_index (b : bot) (mid_price : Q)
        (d : Dict.t order) (pn pnl v : Q) :
  generate_range_grid_orders (mk_bot (cfg b) d (position_yes b) pn pnl v) mid_price
  = generate_range_grid_orders b mid_price.
Proof. apply generate_ext; [reflexivity | reflexivity | intros []; reflexivity]. Qed.




(** ** The order index: placing and cancelling *)

Module IndexFacts.

Lemma get_set_same {V : Type} (k : string) (v : V) (d : Dict.t V) :
  Dict.get k (Dict.set k v d) = Some v.
Proof.
  induction d as [| [k' v'] d IH]; simpl.
  - now rewrite String.eqb_refl.
  - destruct (String.eqb_spec k k') as [-> | Hne]; simpl.
    + now rewrite String.eqb_refl.
    + destruct (String.eqb_spec k k'); [contradiction | exact IH].
Qed.

Lemma get_set_other {V : Type} (k k' : string) (v : V) (d : Dict.t V) :
  k' <> k -> Dict.get k' (Dict.set k v d) = Dict.get k' d.
Proof.
  intros Hne. induction d as [| [k0 v0] d IH]; simpl.
  - destruct (String.eqb_spec k' k); [contradiction | reflexivity].
  - destruct (String.eqb_spec k k0) as [-> | Hk]; simpl.
    + destruct (String.eqb_spec k' k0); [contradiction | reflexivity].
    + destruct (String.eqb_spec k' k0); [reflexivity | exact IH].
Qed.

Lemma get_del_same {V : Type} (k : string) (d : Dict.t V) :
  Dict.get k (Dict.del k d) = None.
Proof.
  unfold Dict.del. induction d as [| [k0 v0] d IH]; simpl; [reflexivity |].
  destruct (String.eqb_spec k k0) as [-> | Hk]; simpl; [exact IH |].
  destruct (String.eqb_spec k k0); [contradiction | exact IH].
Qed.

Lemma get_del_other {V : Type} (k k' : string) (d : Dict.t V) :
  k' <> k -> Dict.get k' (Dict.del k d) = Dict.get k' d.
Proof.
  intros Hne. unfold Dict.del. induction d as [| [k0 v0] d IH]; simpl; [reflexivity |].
  destruct (String.eqb_spec k k0) as [-> | Hk]; simpl.
  - destruct (String.eqb_spec k' k0); [contradiction | exact IH].
  - destruct (String.eqb_spec k' k0); [reflexivity | exact IH].
Qed.

Lemma In_set {V : Type} (k : string) (v : V) (d : Dict.t V) (kv : string * V) :
  In kv (Dict.set k v d) -> kv = (k, v) \/ In kv d.
Proof.
  induction d as [| [k0 v0] d IH]; simpl.
  - intros [<- | []]. now left.
  - destruct (String.eqb_spec k k0) as [-> | Hk]; simpl.
    + intros [<- | H]; [now left | right; now right].
    + intros [<- | H]; [right; now left |].
      destruct (IH H) as [E | I]; [now left | right; now right].
Qed.

(** The two tries of [place_order], one after the other. *)
Lemma place_order_cases (b : bot) (s : side) (p sz : Q)
      (post : nat -> post_response) (now : Q) :
  place_order b s p sz post now
  = if Qle_bool p 0 || Qle_bool 1 p then (b, None)
    else if Qle_bool sz 0 then (b, None)
    else match post 0%nat with
         | OrderID order_id =>
             (set_active_orders b
                (Dict.set order_id (mk_order s p sz now) (active_orders b)),
              Some order_id)
         | PostFailed =>
             match post 1%nat with
             | OrderID order_id =>
                 (set_active_orders b
                    (Dict.set order_id (mk_order s p sz now) (active_orders b)),
                  Some order_id)
             | PostFailed => (b, None)
             end
         end.
Proof.
  unfold place_order, range. simpl. unfold place_order_body. simpl.
  destruct (Qle_bool p 0 || Qle_bool 1 p); [reflexivity |].
  destruct (Qle_bool sz 0); [reflexivity |].
  destruct (post 0%nat); [reflexivity |].
  destruct (post 1%nat); reflexivity.
Qed.

End IndexFacts.

Import IndexFacts.

(** X11. What a call of [place_order] leaves behind.  When it returns an order
    id, the price was inside (0, 1) and the size positive, the exchange gave
    that id at the first or the second try, the index now maps the id to the
    order with the side, price and size of the call, and every other id is
    tracked as before.  When it returns nothing, the bot is unchanged. *)
Theorem place_order_outcome (b : bot) (s : side) (p sz : Q)
        (post : nat -> post_response) (now : Q) :
  match snd (place_order b s p sz post now) with
  | Some order_id =>
      0 < p /\ p < 1 /\ 0 < sz /\
      (exists attempt, (attempt < 2)%nat /\ post attempt = OrderID order_id) /\
      Dict.get order_id (active_orders (fst (place_order b s p sz post now)))
      = Some (mk_order s p sz now) /\
      forall k, k <> order_id ->
                Dict.get k (active_orders (fst (place_order b s p sz post now)))
                = Dict.get k (active_orders b)
  | None => fst (place_order b s p sz post now) = b
  end.
Proof.
  rewrite place_order_cases.
  destruct (Qle_bool p 0 || Qle_bool 1 p) eqn:Ep; [reflexivity |].
  destruct (Qle_bool sz 0) eqn:Es; [reflexivity |].
  apply orb_false_iff in Ep. destruct Ep as [P0 P1].
  apply Qle_bool_gt in P0. apply Qle_bool_gt in P1. apply Qle_bool_gt in Es.
  assert (K : forall order_id attempt, (attempt < 2)%nat -> post attempt = OrderID order_id ->
            0 < p /\ p < 1 /\ 0 < sz /\
            (exists attempt, (attempt < 2)%nat /\ post attempt = OrderID order_id) /\
            Dict.get order_id
              (Dict.set order_id (mk_order s p sz now) (active_orders b))
            = Some (mk_order s p sz now) /\
            forall k, k <> order_id ->
              Dict.get k (Dict.set order_id (mk_order s p sz now) (active_orders b))
              = Dict.get k (active_orders b)).
  { intros order_id attempt Ha Hp.
    split; [exact P0 |]. split; [exact P1 |]. split; [exact Es |].
    split; [now exists attempt |].
    split; [apply get_set_same |].
    intros k Hk. now apply get_set_other. }
  destruct (post 0%nat) as [i0 |] eqn:E0; simpl.
  - apply (K i0 0%nat); [lia | exact E0].
  - destruct (post 1%nat) as [i1 |] eqn:E1; simpl; [| reflexivity].
    apply (K i1 1%nat); [lia | exact E1].
Qed.

(** X12. With a price inside (0, 1) and a positive size, [place_order] asks the
    exchange at most twice and the first id it gets wins: the second answer
    is consulted only when the first try failed, and after two failures the
    order is given up. *)
Theorem place_order_retry (b : bot) (s : side) (p sz : Q)
        (post : nat -> post_response) (now : Q) :
  0 < p -> p < 1 -> 0 < sz ->
  snd (place_order b s p sz post now)
  = match post 0%nat with
    | OrderID order_id => Some order_id
    | PostFailed =>
        match post 1%nat with
        | OrderID order_id => Some order_id
        | PostFailed => None
        end
    end.
Proof.
  intros P0 P1 S0. rewrite place_order_cases.
  rewrite (proj2 (Qle_bool_gt _ _) P0), (proj2 (Qle_bool_gt _ _) P1),
          (proj2 (Qle_bool_gt _ _) S0). simpl.
  destruct (post 0%nat); [reflexivity |]. destruct (post 1%nat); reflexivity.
Qed.

Lemma place_order_retry_witness :
  0 < 0.48 /\ 0.48 < 1 /\ 0 < 20.83 /\
  snd (place_order example_bot BUY 0.48 20.83 (second_try "0xb1") 0) = Some "0xb1"%string.
Proof.
  split; [reflexivity |]. split; [reflexivity |]. split; [reflexivity |].
  apply (place_order_retry example_bot BUY 0.48 20.83 (second_try "0xb1") 0);
    reflexivity.
Defined.

(** X13. What [cancel_order] leaves behind.  When the cancellation went through,
    or the exchange says the order is already gone, the id is tracked no
    more and every other id is tracked as before; on any other error the
    bot is unchanged, so the order stays tracked.  The held size, the volume
    and the configuration are never touched. *)
Theorem cancel_order_outcome (b : bot) (order_id : string) (r : cancel_response) :
  match r with
  | CancelFailed => cancel_order b order_id r = b
  | _ =>
      Dict.get order_id (active_orders (cancel_order b order_id r)) = None /\
      forall k, k <> order_id ->
                Dict.get k (active_orders (cancel_order b order_id r))
                = Dict.get k (active_orders b)
  end /\
  position_yes (cancel_order b order_id r) = position_yes b /\
  total_volume (cancel_order b order_id r) = total_volume b /\
  cfg (cancel_order b order_id r) = cfg b.
Proof.
  assert (K : Dict.get order_id
                (active_orders (if Dict.mem order_id (active_orders b)
                                then set_active_orders b (Dict.del order_id (active_orders b))
                                else b)) = None /\
              forall k, k <> order_id ->
                Dict.get k
                  (active_orders (if Dict.mem order_id (active_orders b)
                                  then set_active_orders b (Dict.del order_id (active_orders b))
                                  else b))
                = Dict.get k (active_orders b)).
  { unfold Dict.mem.
    destruct (Dict.get order_id (active_orders b)) eqn:E; simpl.
    - split; [apply get_del_same | intros k Hk; now apply get_del_other].
    - split; [exact E | reflexivity]. }
  split.
  - destruct r; simpl; [exact K | exact K | reflexivity].
  - unfold cancel_order.
    destruct r; try (repeat split; reflexivity);
      destruct (Dict.mem order_id (active_orders b)); repeat split; reflexivity.
Qed.


(** ** Reconciliation over several listings *)

Module ReconcileMore.

Lemma filter_idem {A : Type} (f : A -> bool) (l : list A) :
  filter f (filter f l) = filter f l.
Proof.
  induction l as [| x l IH]; simpl; [reflexivity |].
  destruct (f x) eqn:E; simpl; [rewrite E, IH; reflexivity | exact IH].
Qed.

Lemma filter_negb_filter {A : Type} (f : A -> bool) (l : list A) :
  filter (fun x => negb (f x)) (filter f l) = [].
Proof.
  induction l as [| x l IH]; simpl; [reflexivity |].
  destruct (f x) eqn:E; simpl; [rewrite E; exact IH | exact IH].
Qed.

Lemma filter_all {A : Type} (f : A -> bool) (l : list A) :
  (forall x, In x l -> f x = true) -> filter f l = l.
Proof.
  induction l as [| x l IH]; simpl; intros H; [reflexivity |].
  rewrite (H x (or_introl eq_refl)), IH; [reflexivity |].
  intros y Hy. apply H. now right.
Qed.

Lemma filter_none {A : Type} (f : A -> bool) (l : list A) :
  (forall x, In x l -> f x = false) -> filter f l = [].
Proof.
  induction l as [| x l IH]; simpl; intros H; [reflexivity |].
  rewrite (H x (or_introl eq_refl)). apply IH.
  intros y Hy. apply H. now right.
Qed.

(** [update_active_orders] leaves the configuration, the NO position and
    the realised profit alone, whatever the index looks like. *)
Lemma fold_fill_body_frame (ids : list string) (l : list string) :
  forall st : bot * list filled_order,
    cfg (fst (fold_left (fill_body ids) l st)) = cfg (fst st) /\
    position_no (fst (fold_left (fill_body ids) l st)) = position_no (fst st) /\
    realized_pnl (fst (fold_left (fill_body ids) l st)) = realized_pnl (fst st).
Proof.
  induction l as [| k l IH]; intros st; simpl; [now repeat split |].
  destruct (IH (fill_body ids st k)) as [C [N R]].
  rewrite C, N, R. clear.
  destruct st as [b filled]. unfold fill_body.
  destruct (negb (str_in k ids)); [| now repeat split].
  destruct (Dict.get k (active_orders b)) as [o |]; [| now repeat split].
  destruct (side_of o); now repeat split.
Qed.

End ReconcileMore.

Import ReconcileMore.

(** X14. Reconciling twice against the same listing does nothing the second
    time: no fill is reported again and the bot stays as the first
    reconciliation left it. *)
Theorem reconcile_idempotent (b : bot) (open_orders : list exchange_order) :
  Dict.wf (active_orders b) ->
  update_active_orders (fst (update_active_orders b open_orders)) open_orders
  = (fst (update_active_orders b open_orders), []).
Proof.
  intros Hwf.
  pose proof (update_active_orders_wf b open_orders Hwf) as Hwf1.
  rewrite (update_active_orders_eq _ open_orders Hwf1).
  rewrite (update_active_orders_eq b open_orders Hwf) in *. simpl.
  unfold still_open, disappeared. simpl. unfold still_open.
  rewrite (filter_idem (fun kv => str_in (fst kv) (open_order_ids open_orders))).
  rewrite (filter_negb_filter (fun kv => str_in (fst kv) (open_order_ids open_orders))).
  reflexivity.
Qed.

Lemma reconcile_idempotent_witness :
  Dict.wf (active_orders tracked_buy_bot) /\
  update_active_orders (fst (update_active_orders tracked_buy_bot [])) []
  = (fst (update_active_orders tracked_buy_bot []), []).
Proof.
  assert (W : Dict.wf (active_orders tracked_buy_bot)).
  { unfold Dict.wf. simpl. constructor; [intros [] | constructor]. }
  split; [exact W |]. apply (reconcile_idempotent tracked_buy_bot [] W).
Defined.

(** X15. When [get_open_orders] comes back empty - the three queries raised or
    returned nothing for the token - the reconciliation takes every tracked
    order for filled: each is reported as a fill, the index is emptied, and
    the held size moves by all their signed sizes. *)
Theorem empty_listing_books_all (b : bot) (token_id : string)
        (by_asset by_market everything : listing) :
  Dict.wf (active_orders b) ->
  get_open_orders token_id by_asset by_market everything = [] ->
  active_orders
    (fst (update_active_orders b
            (map listed (get_open_orders token_id by_asset by_market everything)))) = [] /\
  snd (update_active_orders b
         (map listed (get_open_orders token_id by_asset by_market everything)))
  = map fill_of (map snd (active_orders b)) /\
  position_yes
    (fst (update_active_orders b
            (map listed (get_open_orders token_id by_asset by_market everything))))
  == position_yes b + Qsum (map signed_size (map snd (active_orders b))).
Proof.
  intros Hwf E. rewrite E. change (map listed []) with (@nil exchange_order).
  rewrite (update_active_orders_eq b [] Hwf). simpl.
  assert (D : disappeared b [] = active_orders b).
  { unfold disappeared. apply filter_all. intros; reflexivity. }
  assert (S : still_open b [] = []).
  { unfold still_open. apply filter_none. intros; reflexivity. }
  rewrite D, S.
  split; [reflexivity |]. split; [reflexivity |]. apply fold_apply_position.
Qed.

Lemma empty_listing_books_all_witness :
  Dict.wf (active_orders tracked_buy_bot) /\
  get_open_orders "tok" Raises (Returns []) Raises = [] /\
  snd (update_active_orders tracked_buy_bot
         (map listed (get_open_orders "tok" Raises (Returns []) Raises)))
  = map fill_of (map snd (active_orders tracked_buy_bot)).
Proof.
  assert (W : Dict.wf (active_orders tracked_buy_bot)).
  { unfold Dict.wf. simpl. constructor; [intros [] | constructor]. }
  split; [exact W |]. split; [reflexivity |].
  apply (empty_listing_books_all tracked_buy_bot "tok" Raises (Returns []) Raises W eq_refl).
Defined.

(** X16. [get_open_orders] comes back empty exactly when the query by asset and
    the query by market raise or return nothing, and the unparameterised
    listing raises or holds no order of the token. *)
Theorem get_open_orders_empty (token_id : string)
        (by_asset by_market everything : listing) :
  get_open_orders token_id by_asset by_market everything = []
  <-> (by_asset = Raises \/ by_asset = Returns []) /\
      (by_market = Raises \/ by_market = Returns []) /\
      match everything with
      | Raises => True
      | Returns orders =>
          Forall (fun o => is_token token_id (asset_id o) = false /\
                           is_token token_id (market o) = false) orders
      end.
Proof.
  unfold get_open_orders.
  destruct by_asset as [| [| o1 l1]].
  1, 2: destruct by_market as [| [| o2 l2]].
  1, 2, 4, 5: destruct everything as [| orders].
  all: try (split; [intros _ | intros _; reflexivity];
            split; [auto | split; [auto | exact I]]; fail).
  all: try (split; [discriminate | intros [[H | H] [[G | G] _]]; discriminate]).
  all: split.
  all: try (intros [_ [_ F]]; apply filter_none; intros x Hx;
            rewrite Forall_forall in F; destruct (F x Hx) as [A M];
            rewrite A, M; reflexivity).
  all: intros H; (split; [auto | split; [auto |]]);
       apply Forall_forall; intros x Hx;
       destruct (is_token token_id (asset_id x) || is_token token_id (market x)) eqn:E;
       [| apply orb_false_iff in E; exact E];
       exfalso;
       assert (I : In x (filter (fun o => is_token token_id (asset_id o)
                                          || is_token token_id (market o)) orders))
         by (apply filter_In; split; assumption);
       rewrite H in I; exact I.
Qed.


(** ** Invariants of the tracked state *)

Module StateFacts.

Lemma forallb_set (g : order -> bool) (k : string) (v : order) (d : Dict.t order) :
  g v = true ->
  forallb (fun kv => g (snd kv)) d = true ->
  forallb (fun kv => g (snd kv)) (Dict.set k v d) = true.
Proof.
  intros Hv. induction d as [| [k0 v0] d IH]; simpl.
  - intros _. now rewrite Hv.
  - intros H. apply andb_true_iff in H. destruct H as [H0 H1].
    destruct (String.eqb_spec k k0) as [-> | Hk]; simpl.
    + now rewrite Hv, H1.
    + now rewrite H0, IH.
Qed.

Lemma forallb_filter {A : Type} (g f : A -> bool) (l : list A) :
  forallb g l = true -> forallb g (filter f l) = true.
Proof.
  induction l as [| x l IH]; simpl; [reflexivity |].
  intros H. apply andb_true_iff in H. destruct H as [H0 H1].
  destruct (f x); simpl; [now rewrite H0, IH | now apply IH].
Qed.

Lemma place_order_valid b s p sz post now :
  tracked_valid b = true -> tracked_valid (fst (place_order b s p sz post now)) = true.
Proof.
  intros H. rewrite place_order_cases.
  destruct (Qle_bool p 0 || Qle_bool 1 p) eqn:Ep; [exact H |].
  destruct (Qle_bool sz 0) eqn:Es; [exact H |].
  assert (V : valid_order (mk_order s p sz now) = true).
  { unfold valid_order. simpl. now rewrite Ep, Es. }
  destruct (post 0%nat); simpl.
  - unfold tracked_valid. simpl. now apply forallb_set.
  - destruct (post 1%nat); simpl; [| exact H].
    unfold tracked_valid. simpl. now apply forallb_set.
Qed.

Lemma place_all_valid todo : forall b k post clock,
  tracked_valid b = true -> tracked_valid (place_all b todo k post clock) = true.
Proof.
  induction todo as [| o todo IH]; intros b k post clock H; simpl; [exact H |].
  apply IH. now apply place_order_valid.
Qed.

Lemma update_active_orders_valid b open_orders :
  Dict.wf (active_orders b) ->
  tracked_valid b = true ->
  tracked_valid (fst (update_active_orders b open_orders)) = true.
Proof.
  intros Hwf H. rewrite (update_active_orders_eq b open_orders Hwf).
  unfold tracked_valid. simpl. unfold still_open. now apply forallb_filter.
Qed.

(** What [place_order] and the placing loop of the cycle leave alone. *)
Lemma place_order_frame b s p sz post now :
  cfg (fst (place_order b s p sz post now)) = cfg b /\
  position_no (fst (place_order b s p sz post now)) = position_no b /\
  realized_pnl (fst (place_order b s p sz post now)) = realized_pnl b /\
  total_volume (fst (place_order b s p sz post now)) = total_volume b.
Proof.
  rewrite place_order_cases.
  destruct (Qle_bool p 0 || Qle_bool 1 p); [now repeat split |].
  destruct (Qle_bool sz 0); [now repeat split |].
  destruct (post 0%nat); [now repeat split |].
  destruct (post 1%nat); now repeat split.
Qed.

Lemma place_all_frame todo : forall b k post clock,
  cfg (place_all b todo k post clock) = cfg b /\
  position_no (place_all b todo k post clock) = position_no b /\
  realized_pnl (place_all b todo k post clock) = realized_pnl b /\
  total_volume (place_all b todo k post clock) = total_volume b.
Proof.
  induction todo as [| o todo IH]; intros b k post clock; simpl; [now repeat split |].
  destruct (IH (fst (place_order b (g_side o) (g_price o) (g_size o) (post k) (clock k)))
               (S k) post clock) as [C [N [R V]]].
  destruct (place_order_frame b (g_side o) (g_price o) (g_size o) (post k) (clock k))
    as [C' [N' [R' V']]].
  rewrite C, N, R, V, C', N', R', V'. now repeat split.
Qed.

Lemma refresh_position_id b : refresh_position b = b.
Proof. now destruct b. Qed.

Lemma valid_order_value (o : order) : valid_order o = true -> 0 < order_value o.
Proof.
  unfold valid_order, order_value. intros H.
  apply andb_true_iff in H. destruct H as [P S].
  apply negb_true_iff in P, S. apply orb_false_iff in P. destruct P as [P _].
  apply Qle_bool_gt in P, S. nra.
Qed.

Lemma Qsum_order_value_nonneg (l : list order) :
  forallb valid_order l = true -> 0 <= Qsum (map order_value l).
Proof.
  induction l as [| o l IH]; simpl; intros H; [lra |].
  apply andb_true_iff in H. destruct H as [H0 H1].
  pose proof (valid_order_value o H0). specialize (IH H1). lra.
Qed.

Lemma forallb_map_snd (g : order -> bool) (d : Dict.t order) :
  forallb (fun kv => g (snd kv)) d = forallb g (map snd d).
Proof. induction d as [| kv d IH]; simpl; [reflexivity | now rewrite IH]. Qed.

(** [run_cycle], one step after the other, when it gets past its price
    checks. *)
Lemma run_cycle_runs b e mid_price :
  current_price e = Some mid_price ->
  cycle_runs e = true ->
  run_cycle b e
  = place_all (fst (update_active_orders b (open_orders e)))
              (missing_orders (fst (update_active_orders b (open_orders e)))
                 (generate_range_grid_orders
                    (fst (update_active_orders b (open_orders e))) mid_price))
              0 (post e) (clock e).
Proof.
  unfold cycle_runs, run_cycle. intros ->. intros H.
  apply negb_true_iff in H. rewrite H.
  now rewrite refresh_position_id.
Qed.

Lemma run_cycle_skips b e : cycle_runs e = false -> run_cycle b e = b.
Proof.
  unfold cycle_runs, run_cycle. destruct (current_price e) as [mid |]; [| reflexivity].
  intros H. apply negb_false_iff in H. now rewrite H.
Qed.

End StateFacts.

Import StateFacts.

(** X17. Every tracked order has a price inside (0, 1) and a positive size: this
    holds of a fresh bot and is kept by placing, cancelling, reconciling and
    by a whole cycle, whatever the exchange answers. *)
Theorem tracked_orders_valid (b : bot) :
  Dict.wf (active_orders b) ->
  tracked_valid b = true ->
  (forall s p sz post now, tracked_valid (fst (place_order b s p sz post now)) = true) /\
  (forall k r, tracked_valid (cancel_order b k r) = true) /\
  (forall open_orders, tracked_valid (cancel_all_orders b open_orders) = true) /\
  (forall open_orders, tracked_valid (fst (update_active_orders b open_orders)) = true) /\
  (forall e, tracked_valid (run_cycle b e) = true).
Proof.
  intros Hwf H.
  split; [intros; now apply place_order_valid |].
  split.
  { intros k r. unfold cancel_order.
    destruct r; try exact H;
      (destruct (Dict.mem k (active_orders b)); [| exact H]);
      unfold tracked_valid; simpl; unfold Dict.del; now apply forallb_filter. }
  split; [intros [| o l]; [exact H | reflexivity] |].
  split; [intros; now apply update_active_orders_valid |].
  intros e. destruct (cycle_runs e) eqn:R.
  - unfold cycle_runs in R. destruct (current_price e) as [mid |] eqn:P; [| discriminate].
    rewrite (run_cycle_runs b e mid P); [| unfold cycle_runs; now rewrite P].
    apply place_all_valid. now apply update_active_orders_valid.
  - now rewrite run_cycle_skips.
Qed.

Lemma tracked_orders_valid_witness :
  Dict.wf (active_orders tracked_buy_bot) /\
  tracked_valid tracked_buy_bot = true /\
  tracked_valid (run_cycle tracked_buy_bot cycle_1) = true.
Proof.
  assert (W : Dict.wf (active_orders tracked_buy_bot)).
  { unfold Dict.wf. simpl. constructor; [intros [] | constructor]. }
  split; [exact W |]. split; [reflexivity |].
  apply (tracked_orders_valid tracked_buy_bot W eq_refl).
Defined.

(** X18. A bot as [__init__] sets it up tracks nothing, holds nothing and has
    traded nothing; its configuration passed the numeric checks, so its
    range is a non-empty part of (0, 1) and its spacing lies in (0, 1). *)
Theorem init_state (c : config) (b : bot) :
  init c = Some b ->
  cfg b = c /\ active_orders b = [] /\ position_yes b = 0 /\ total_volume b = 0 /\
  tracked_valid b = true /\
  0 < grid_spacing c /\ grid_spacing c < 1 /\
  0 < range_min c /\ range_min c < range_max c /\ range_max c < 1 /\
  0 < order_size_usd c /\ 0 < max_position_usd c /\ (0 < grid_levels c)%nat.
Proof.
  unfold init. destruct (valid_config c) eqn:V; [| discriminate].
  intros E. injection E as <-. simpl.
  unfold valid_config in V.
  repeat (apply andb_true_iff in V; destruct V as [V ?]).
  repeat match goal with
         | H : Qltb _ _ = true |- _ => apply Qltb_lt in H
         | H : Nat.ltb _ _ = true |- _ => apply Nat.ltb_lt in H
         end.
  repeat split; try reflexivity; try assumption.
Qed.

Lemma init_state_witness :
  init example_config = Some example_bot /\ active_orders example_bot = [].
Proof.
  split; [reflexivity |].
  apply (init_state example_config example_bot eq_refl).
Defined.

(** X19. The traded volume never goes down over a cycle: from a state whose
    tracked orders are valid, a cycle adds the values size * price of the
    orders that disappeared, each of them positive. *)
Theorem volume_never_decreases (b : bot) (e : cycle_env) :
  Dict.wf (active_orders b) ->
  tracked_valid b = true ->
  total_volume b <= total_volume (run_cycle b e) /\
  total_volume (run_cycle b e)
  == total_volume b
     + (if cycle_runs e
        then Qsum (map order_value (map snd (disappeared b (open_orders e))))
        else 0).
Proof.
  intros Hwf H.
  assert (E : total_volume (run_cycle b e)
              == total_volume b
                 + (if cycle_runs e
                    then Qsum (map order_value (map snd (disappeared b (open_orders e))))
                    else 0)).
  { destruct (cycle_runs e) eqn:R.
    - unfold cycle_runs in R. destruct (current_price e) as [mid |] eqn:P; [| discriminate].
      rewrite (run_cycle_runs b e mid P); [| unfold cycle_runs; now rewrite P].
      destruct (place_all_frame
                  (missing_orders (fst (update_active_orders b (open_orders e)))
                     (generate_range_grid_orders
                        (fst (update_active_orders b (open_orders e))) mid))
                  (fst (update_active_orders b (open_orders e))) 0%nat (post e) (clock e))
        as [_ [_ [_ V]]].
      rewrite V. rewrite (update_active_orders_eq b (open_orders e) Hwf). simpl.
      apply fold_apply_volume.
    - rewrite run_cycle_skips by exact R. lra. }
  split; [| exact E].
  rewrite E. destruct (cycle_runs e); [| lra].
  assert (0 <= Qsum (map order_value (map snd (disappeared b (open_orders e))))); [| lra].
  apply Qsum_order_value_nonneg. rewrite <- forallb_map_snd.
  unfold disappeared. apply forallb_filter. exact H.
Qed.

Lemma volume_never_decreases_witness :
  Dict.wf (active_orders tracked_buy_bot) /\
  tracked_valid tracked_buy_bot = true /\
  total_volume tracked_buy_bot <= total_volume (run_cycle tracked_buy_bot cycle_1).
Proof.
  assert (W : Dict.wf (active_orders tracked_buy_bot)).
  { unfold Dict.wf. simpl. constructor; [intros [] | constructor]. }
  split; [exact W |]. split; [reflexivity |].
  apply (volume_never_decreases tracked_buy_bot cycle_1 W eq_refl).
Defined.

(** X20. A cycle never touches the configuration, the NO position or the
    realised profit: the profit counter stays at what it was, whatever is
    filled. *)
Theorem run_cycle_frame (b : bot) (e : cycle_env) :
  cfg (run_cycle b e) = cfg b /\
  position_no (run_cycle b e) = position_no b /\
  realized_pnl (run_cycle b e) = realized_pnl b.
Proof.
  destruct (cycle_runs e) eqn:R.
  - unfold cycle_runs in R. destruct (current_price e) as [mid |] eqn:P; [| discriminate].
    rewrite (run_cycle_runs b e mid P); [| unfold cycle_runs; now rewrite P].
    destruct (place_all_frame
                (missing_orders (fst (update_active_orders b (open_orders e)))
                   (generate_range_grid_orders
                      (fst (update_active_orders b (open_orders e))) mid))
                (fst (update_active_orders b (open_orders e))) 0%nat (post e) (clock e))
      as [C [N [Rp _]]].
    rewrite C, N, Rp. unfold update_active_orders.
    apply (fold_fill_body_frame (open_order_ids (open_orders e))
             (Dict.keys (active_orders b)) (b, [])).
  - rewrite run_cycle_skips by exact R. now repeat split.
Qed.

(** X21. Over a cycle the held size moves by the signed sizes of the tracked
    orders the exchange no longer lists, and by nothing else: the orders the
    cycle places do not count until they disappear in a later cycle, and a
    skipped cycle changes nothing. *)
Theorem run_cycle_position (b : bot) (e : cycle_env) :
  Dict.wf (active_orders b) ->
  position_yes (run_cycle b e)
  == position_yes b
     + (if cycle_runs e
        then Qsum (map signed_size (map snd (disappeared b (open_orders e))))
        else 0).
Proof.
  intros Hwf. destruct (cycle_runs e) eqn:R.
  - unfold cycle_runs in R. destruct (current_price e) as [mid |] eqn:P; [| discriminate].
    rewrite (run_cycle_runs b e mid P); [| unfold cycle_runs; now rewrite P].
    rewrite place_all_position.
    rewrite (update_active_orders_eq b (open_orders e) Hwf). simpl.
    apply fold_apply_position.
  - rewrite run_cycle_skips by exact R. lra.
Qed.

Lemma run_cycle_position_witness :
  Dict.wf (active_orders after_1) /\
  position_yes (run_cycle after_1 cycle_2)
  == position_yes after_1
     + (if cycle_runs cycle_2
        then Qsum (map signed_size (map snd (disappeared after_1 (open_orders cycle_2))))
        else 0).
Proof.
  assert (W : Dict.wf (active_orders after_1)).
  { apply run_cycle_wf. unfold Dict.wf. simpl. constructor. }
  split; [exact W |]. apply (run_cycle_position after_1 cycle_2 W).
Defined.


(** ** What a cycle places *)

Module CycleFacts.

Lemma valid_mid_runs (e : cycle_env) (mid : Q) :
  current_price e = Some mid -> valid_mid_price mid = true -> cycle_runs e = true.
Proof.
  unfold cycle_runs, valid_mid_price, Qltb. intros -> V.
  apply andb_true_iff in V. destruct V as [V0 V1].
  apply negb_true_iff in V0, V1. now rewrite V0, V1.
Qed.

Lemma run_cycle_reconciled b e mid :
  current_price e = Some mid -> valid_mid_price mid = true ->
  run_cycle b e
  = place_all (reconciled b e)
              (missing_orders (reconciled b e)
                 (generate_range_grid_orders (reconciled b e) mid))
              0 (post e) (clock e).
Proof.
  intros P V. apply run_cycle_runs; [exact P | now apply valid_mid_runs with mid].
Qed.

Lemma set_fresh {V : Type} (k : string) (v : V) (d : Dict.t V) :
  ~ In k (Dict.keys d) -> Dict.set k v d = d ++ [(k, v)].
Proof.
  induction d as [| [k0 v0] d IH]; simpl; intros H; [reflexivity |].
  destruct (String.eqb_spec k k0) as [-> | Hk]; [tauto |].
  rewrite IH; tauto.
Qed.

(** The code's own test "the price is among the active prices of the
    side". *)
Lemma price_in_active (b : bot) (s : side) (p : Q) :
  price_in p (active_prices b s) = true
  <-> exists kv, In kv (active_orders b) /\ side_of (snd kv) = s /\ p == price (snd kv).
Proof.
  unfold price_in, active_prices. rewrite existsb_exists. split.
  - intros [x [I E]]. apply in_map_iff in I. destruct I as [kv [<- I]].
    apply filter_In in I. destruct I as [I S].
    exists kv. split; [exact I |]. split; [| now apply Qeq_bool_iff].
    destruct (side_of (snd kv)), s; simpl in S; congruence.
  - intros [kv [I [S E]]]. exists (price (snd kv)). split; [| now apply Qeq_bool_iff].
    apply in_map_iff. exists kv. split; [reflexivity |].
    apply filter_In. split; [exact I |]. rewrite S. now destruct s.
Qed.

Lemma place_all_sound todo : forall b k post clock kv,
  In kv (active_orders (place_all b todo k post clock)) ->
  In kv (active_orders b) \/
  exists t i, In t todo /\ snd kv = order_of t (clock i).
Proof.
  induction todo as [| t todo IH]; intros b k post clock kv H; simpl in H; [now left |].
  apply IH in H. destruct H as [H | [t' [i [I E]]]].
  - rewrite place_order_cases in H.
    assert (K : forall order_id,
               In kv (Dict.set order_id
                        (mk_order (g_side t) (g_price t) (g_size t) (clock k))
                        (active_orders b)) ->
               In kv (active_orders b) \/
               exists t' i, In t' (t :: todo) /\ snd kv = order_of t' (clock i)).
    { intros order_id HI. apply In_set in HI. destruct HI as [-> | HI]; [| now left].
      right. exists t, k. split; [now left | reflexivity]. }
    destruct (Qle_bool (g_price t) 0 || Qle_bool 1 (g_price t)); [now left |].
    destruct (Qle_bool (g_size t) 0); [now left |].
    destruct (post k 0%nat) as [i0 |]; simpl in H; [now apply (K i0) |].
    destruct (post k 1%nat) as [i1 |]; simpl in H; [now apply (K i1) | now left].
  - right. exists t', i. split; [now right | exact E].
Qed.

Section Accepting.
Variable ids : list string.
Variable post : nat -> nat -> post_response.
Variable clock : nat -> Q.
  Hypothesis ids_distinct : NoDup ids.
  Hypothesis accepted :
    forall i, (i < length ids)%nat -> post i 0%nat = OrderID (nth i ids EmptyString).

Lemma place_all_complete todo : forall b k,
    (k + length todo <= length ids)%nat ->
    (forall i, (k <= i < length ids)%nat ->
               ~ In (nth i ids EmptyString) (Dict.keys (active_orders b))) ->
    Forall (fun t => Qle_bool (g_price t) 0 || Qle_bool 1 (g_price t) = false /\
                     Qle_bool (g_size t) 0 = false) todo ->
    (forall kv, In kv (active_orders b) ->
                In kv (active_orders (place_all b todo k post clock))) /\
    (forall t, In t todo ->
               exists key i,
                 In (key, order_of t (clock i))
                    (active_orders (place_all b todo k post clock))).
Proof.
    induction todo as [| t todo IH]; intros b k Hlen Hfresh Hvalid; simpl.
    { split; [auto | intros t []]. }
    inversion Hvalid as [| ? ? [Vp Vs] Hvalid']; subst.
    simpl in Hlen.
    assert (Hk : (k < length ids)%nat) by lia.
    rewrite place_order_cases, Vp, Vs, (accepted k Hk). simpl.
    assert (Fk : ~ In (nth k ids EmptyString) (Dict.keys (active_orders b)))
      by (apply Hfresh; lia).
    rewrite (set_fresh _ _ _ Fk).
    destruct (IH (set_active_orders b
                    (active_orders b
                     ++ [(nth k ids EmptyString,
                          mk_order (g_side t) (g_price t) (g_size t) (clock k))]))
                 (S k)) as [Keep Placed].
    - lia.
    - intros i Hi. simpl. unfold Dict.keys. rewrite map_app, in_app_iff. simpl.
      intros [I | [E | []]].
      + apply (Hfresh i); [lia | exact I].
      + apply (proj1 (NoDup_nth ids EmptyString) ids_distinct) in E; lia.
    - exact Hvalid'.
    - split.
      + intros kv I. apply Keep. simpl. apply in_app_iff. now left.
      + intros t' [<- | I].
        * exists (nth k ids EmptyString), k. apply Keep. simpl.
          apply in_app_iff. right. now left.
        * now apply Placed.
Qed.
End Accepting.

Lemma length_sides (l : list grid_order) :
  length l = (length (filter (is_side BUY) l) + length (filter (is_side SELL) l))%nat.
Proof.
  induction l as [| o l IH]; simpl; [reflexivity |].
  unfold is_side in *. destruct (g_side o); simpl; lia.
Qed.

Lemma length_filter_le {A : Type} (f : A -> bool) (l : list A) :
  (length (filter f l) <= length l)%nat.
Proof. induction l as [| x l IH]; simpl; [lia |]. destruct (f x); simpl; lia. Qed.

(** The ladder is planned from the configuration and the held size, and
    the placing loop changes neither. *)
Lemma generate_after_place_all b todo k post clock mid :
  generate_range_grid_orders (place_all b todo k post clock) mid
  = generate_range_grid_orders b mid.
Proof.
  destruct (place_all_frame todo b k post clock) as [C _].
  pose proof (place_all_position todo b k post clock) as P.
  apply generate_ext.
  - exact C.
  - unfold calculate_order_size, calculate_position_value. now rewrite C, P.
  - intros s. unfold can_place_order, calculate_position_value. now rewrite C, P.
Qed.

Lemma reconciled_keys b e k :
  Dict.wf (active_orders b) ->
  In k (Dict.keys (active_orders (reconciled b e))) -> In k (Dict.keys (active_orders b)).
Proof.
  intros Hwf. unfold reconciled.
  rewrite (update_active_orders_eq b (open_orders e) Hwf). simpl. unfold still_open.
  rewrite (keys_filter_In (fun k => str_in k (open_order_ids (open_orders e)))). tauto.
Qed.

Lemma reconciled_cfg b e : cfg (reconciled b e) = cfg b.
Proof.
  unfold reconciled, update_active_orders.
  apply (fold_fill_body_frame (open_order_ids (open_orders e))
           (Dict.keys (active_orders b)) (b, [])).
Qed.

(** With a minimum and a maximum order size of at least a cent of a
    share, every rung has a positive size. *)
Lemma ladder_sizes_positive b mid :
  1#100 <= min_order_size (cfg b) -> 1#100 <= max_order_size (cfg b) ->
  Forall (fun o => 0 < g_size o) (generate_range_grid_orders b mid).
Proof.
  intros Hmin Hmax. eapply Forall_impl; [| apply order_size_rounded_gen].
  intros o [L [_ [_ N]]]. cbv beta in *.
  assert (C : 1#100 <= capped_size b o).
  { unfold capped_size in *.
    destruct (Qltb (max_order_size (cfg b)) _); lra. }
  apply Qabs_Qle_condition in N. lra.
Qed.

End CycleFacts.

Import CycleFacts.

(** X22. When a cycle runs, every order tracked after it is either an order that
    was tracked before and is still listed by the exchange, or the entry of
    a rung of the target ladder that had no tracked order of its side at its
    price: the cycle places nothing outside the ladder and never doubles a
    rung that is already covered. *)
Theorem cycle_places_rungs_only (b : bot) (e : cycle_env) (mid_price : Q) :
  Dict.wf (active_orders b) ->
  current_price e = Some mid_price ->
  valid_mid_price mid_price = true ->
  Forall (fun kv =>
            In kv (still_open b (open_orders e)) \/
            exists t i,
              In t (generate_range_grid_orders (reconciled b e) mid_price) /\
              price_in (g_price t) (active_prices (reconciled b e) (g_side t)) = false /\
              snd kv = order_of t (clock e i))
         (active_orders (run_cycle b e)).
Proof.
  intros Hwf P V. rewrite (run_cycle_reconciled b e mid_price P V).
  apply Forall_forall. intros kv I.
  apply place_all_sound in I. destruct I as [I | [t [i [I E]]]].
  - left. unfold reconciled in I.
    now rewrite (update_active_orders_eq b (open_orders e) Hwf) in I.
  - right. exists t, i. unfold missing_orders in I. apply filter_In in I.
    destruct I as [I M]. apply negb_true_iff in M. now repeat split.
Qed.

Lemma cycle_places_rungs_only_witness :
  Dict.wf (active_orders tracked_buy_bot) /\
  current_price cycle_1 = Some 0.50 /\
  valid_mid_price 0.50 = true /\
  Forall (fun kv =>
            In kv (still_open tracked_buy_bot (open_orders cycle_1)) \/
            exists t i,
              In t (generate_range_grid_orders (reconciled tracked_buy_bot cycle_1) 0.50) /\
              price_in (g_price t)
                       (active_prices (reconciled tracked_buy_bot cycle_1) (g_side t)) = false /\
              snd kv = order_of t (clock cycle_1 i))
         (active_orders (run_cycle tracked_buy_bot cycle_1)).
Proof.
  assert (W : Dict.wf (active_orders tracked_buy_bot)).
  { unfold Dict.wf. simpl. constructor; [intros [] | constructor]. }
  split; [exact W |]. split; [reflexivity |]. split; [reflexivity |].
  apply (cycle_places_rungs_only tracked_buy_bot cycle_1 0.50 W eq_refl eq_refl).
Defined.

(** X23. When a cycle runs and the exchange accepts every first try, giving out
    ids that are pairwise distinct and not tracked yet, the ladder is fully
    covered afterwards: planning again from the state the cycle leaves, at
    the same price, finds no rung missing.  (The minimum and the maximum
    order size are at least a cent of a share, so that no rung rounds to the
    size 0.) *)
Theorem cycle_completes_grid (b : bot) (e : cycle_env) (mid_price : Q)
        (ids : list string) :
  Dict.wf (active_orders b) ->
  current_price e = Some mid_price ->
  valid_mid_price mid_price = true ->
  1#100 <= min_order_size (cfg b) ->
  1#100 <= max_order_size (cfg b) ->
  NoDup ids ->
  (2 * grid_levels (cfg b) <= length ids)%nat ->
  (forall i, (i < length ids)%nat -> post e i 0%nat = OrderID (nth i ids EmptyString)) ->
  (forall k, In k ids -> ~ In k (Dict.keys (active_orders b))) ->
  missing_orders (run_cycle b e) (generate_range_grid_orders (run_cycle b e) mid_price) = [].
Proof.
  intros Hwf P V Hmin Hmax Hnd Hlen Hacc Hfresh.
  rewrite (run_cycle_reconciled b e mid_price P V).
  rewrite generate_after_place_all.
  set (b1 := reconciled b e).
  set (grid := generate_range_grid_orders b1 mid_price).
  set (todo := missing_orders b1 grid).
  assert (Lg : (length grid <= 2 * grid_levels (cfg b))%nat).
  { rewrite (length_sides grid).
    pose proof (ladder_side_count_gen b1 mid_price BUY) as LB.
    pose proof (ladder_side_count_gen b1 mid_price SELL) as LS.
    unfold b1 in LB, LS. rewrite reconciled_cfg in LB, LS. fold b1 in LB, LS.
    fold grid in LB, LS. lia. }
  assert (Lt : (length todo <= length grid)%nat) by apply length_filter_le.
  assert (Vg : Forall (fun t => Qle_bool (g_price t) 0 || Qle_bool 1 (g_price t) = false /\
                                Qle_bool (g_size t) 0 = false) grid).
  { pose proof (ladder_prices_tradable_gen b1 mid_price V) as HP.
    assert (HS : Forall (fun o => 0 < g_size o) grid).
    { apply ladder_sizes_positive; unfold b1; now rewrite reconciled_cfg. }
    fold grid in HP. rewrite Forall_forall in *. intros t I.
    destruct (HP t I) as [_ [_ Pt]]. split; [exact Pt |].
    apply Qle_bool_gt. now apply HS. }
  assert (Vt : Forall (fun t => Qle_bool (g_price t) 0 || Qle_bool 1 (g_price t) = false /\
                                Qle_bool (g_size t) 0 = false) todo).
  { rewrite Forall_forall in *. intros t I. apply Vg.
    unfold todo, missing_orders in I. apply filter_In in I. tauto. }
  destruct (place_all_complete ids (post e) (clock e) Hnd Hacc todo b1 0%nat)
    as [Keep Placed].
  - simpl. lia.
  - intros i Hi I. apply (Hfresh (nth i ids EmptyString)).
    + apply nth_In. lia.
    + now apply reconciled_keys with e.
  - exact Vt.
  - unfold missing_orders at 1. apply filter_none. intros t I.
    apply negb_false_iff. apply price_in_active.
    destruct (price_in (g_price t) (active_prices b1 (g_side t))) eqn:M.
    + apply price_in_active in M. destruct M as [kv [Ik [S E]]].
      exists kv. split; [now apply Keep | now split].
    + assert (It : In t todo).
      { unfold todo, missing_orders. apply filter_In. split; [exact I |]. now rewrite M. }
      destruct (Placed t It) as [key [i Ik]].
      exists (key, order_of t (clock e i)). split; [exact Ik |].
      split; reflexivity.
Qed.

Lemma cycle_completes_grid_witness :
  Dict.wf (active_orders example_bot_long) /\
  missing_orders (run_cycle example_bot_long accepting_cycle)
    (generate_range_grid_orders (run_cycle example_bot_long accepting_cycle) 0.50) = [].
Proof.
  assert (W : Dict.wf (active_orders example_bot_long)) by constructor.
  split; [exact W |].
  apply (cycle_completes_grid example_bot_long accepting_cycle 0.50 six_ids W eq_refl eq_refl).
  - discriminate.
  - discriminate.
  - unfold six_ids.
    repeat (constructor; [simpl; intuition discriminate |]). constructor.
  - simpl. lia.
  - intros i Hi. simpl in Hi.
    do 6 (destruct i as [| i]; [reflexivity |]). lia.
  - intros k _ [].
Defined.

(** X24. The first cycle of a fresh bot tracks Buy orders only: a bot that
    holds nothing plans no Sell rung, and nothing else gets tracked. *)
Theorem fresh_bot_buys_only (c : config) (b : bot) (e : cycle_env) :
  init c = Some b ->
  Forall (fun kv => side_of (snd kv) = BUY) (active_orders (run_cycle b e)).
Proof.
  unfold init. destruct (valid_config c); [| discriminate].
  intros E. injection E as <-.
  destruct (cycle_runs e) eqn:R.
  - unfold cycle_runs in R. destruct (current_price e) as [mid |] eqn:P; [| discriminate].
    rewrite (run_cycle_runs _ e mid P); [| unfold cycle_runs; now rewrite P].
    change (fst (update_active_orders (mk_bot c [] 0 0 0 0) (open_orders e)))
      with (mk_bot c [] 0 0 0 0).
    apply Forall_forall. intros kv I.
    apply place_all_sound in I. destruct I as [[] | [t [i [I ->]]]].
    unfold missing_orders in I. apply filter_In in I. destruct I as [I _].
    pose proof (generate_emitted (mk_bot c [] 0 0 0 0) mid) as G.
    rewrite Forall_forall in G. destruct (G t I) as [Cp _].
    simpl. destruct (g_side t); [reflexivity |]. discriminate.
  - rewrite run_cycle_skips by exact R. constructor.
Qed.

Lemma fresh_bot_buys_only_witness :
  init example_config = Some example_bot /\
  Forall (fun kv => side_of (snd kv) = BUY) (active_orders (run_cycle example_bot cycle_1)).
Proof.
  split; [reflexivity |].
  apply (fresh_bot_buys_only example_config example_bot cycle_1 eq_refl).
Defined.


(** ** Price feed (poly.py, lines 201-304) *)

Module FeedFacts.

Lemma get_order_book_cases {B : Type} (fetch : nat -> option B) :
  get_order_book fetch
  = match fetch 0%nat with
    | Some book => (Some book, 0%nat)
    | None =>
        match fetch 1%nat with
        | Some book => (Some book, 1%nat)
        | None =>
            match fetch 2%nat with
            | Some book => (Some book, 3%nat)
            | None => (None, 3%nat)
            end
        end
    end.
Proof.
  unfold get_order_book, range. simpl. unfold get_order_book_body. simpl.
  destruct (fetch 0%nat); [reflexivity |].
  destruct (fetch 1%nat); [reflexivity |].
  destruct (fetch 2%nat); reflexivity.
Qed.

Lemma find_token_price_from token_id prices : forall ids idx,
  find_token_price token_id ids prices idx
  = match index_of token_id ids with
    | Some i => nth_error prices (idx + i)
    | None => None
    end.
Proof.
  induction ids as [| t ids IH]; intros idx; [reflexivity |].
  cbn [find_token_price index_of].
  destruct (String.eqb t token_id).
  - rewrite Nat.add_0_r. destruct (idx <? length prices)%nat eqn:L.
    + apply Nat.ltb_lt in L. symmetry. apply (nth_error_nth' prices 0 L).
    + apply Nat.ltb_ge in L. rewrite IH.
      rewrite (proj2 (nth_error_None prices idx) L).
      destruct (index_of token_id ids) as [i |]; [| reflexivity].
      apply nth_error_None. lia.
  - rewrite IH. destruct (index_of token_id ids) as [i |]; [| reflexivity].
    cbn [option_map]. f_equal. lia.
Qed.

End FeedFacts.

Import FeedFacts.

(** X25. [get_order_book] asks at most three times and returns the first book it
    gets; it sleeps 1 s after the first failure and 2 s after the second,
    never longer than 3 s in all, and after three failures it returns
    nothing. *)
Theorem get_order_book_backoff {B : Type} (fetch : nat -> option B) :
  (snd (get_order_book fetch) <= 3)%nat /\
  match fst (get_order_book fetch) with
  | Some book =>
      exists attempt,
        (attempt < 3)%nat /\ fetch attempt = Some book /\
        (forall earlier, (earlier < attempt)%nat -> fetch earlier = None) /\
        snd (get_order_book fetch) = (2 ^ attempt - 1)%nat
  | None =>
      (forall attempt, (attempt < 3)%nat -> fetch attempt = None) /\
      snd (get_order_book fetch) = 3%nat
  end.
Proof.
  rewrite get_order_book_cases.
  destruct (fetch 0%nat) as [b0 |] eqn:E0; simpl.
  { split; [lia |]. exists 0%nat. repeat split; [lia | exact E0 | intros; lia]. }
  destruct (fetch 1%nat) as [b1 |] eqn:E1; simpl.
  { split; [lia |]. exists 1%nat. repeat split; [lia | exact E1 |].
    intros [| n] H; [exact E0 | lia]. }
  destruct (fetch 2%nat) as [b2 |] eqn:E2; simpl.
  { split; [lia |]. exists 2%nat. repeat split; [lia | exact E2 |].
    intros [| [| n]] H; [exact E0 | exact E1 | lia]. }
  split; [lia |]. split; [| reflexivity].
  intros [| [| [| n]]] H; [exact E0 | exact E1 | exact E2 | lia].
Qed.

(** X26. On a book whose first bid and first ask are read the same way and are
    not zero, [get_mid_price] returns their mean, which lies between them
    when the bid does not exceed the ask. *)
Theorem get_mid_price_between (bid ask : level) (more_bids more_asks : list level) :
  has_price_attr bid = has_price_attr ask ->
  0 < level_price bid ->
  level_price bid <= level_price ask ->
  get_mid_price (Some (mk_order_book (bid :: more_bids) (ask :: more_asks)))
  = Returned (Some ((level_price bid + level_price ask) / 2)) /\
  level_price bid <= (level_price bid + level_price ask) / 2 /\
  (level_price bid + level_price ask) / 2 <= level_price ask.
Proof.
  intros R B L.
  assert (Nb : Qeq_bool (level_price bid) 0 = false).
  { apply not_true_iff_false. intros H. apply Qeq_bool_iff in H. lra. }
  assert (Na : Qeq_bool (level_price ask) 0 = false).
  { apply not_true_iff_false. intros H. apply Qeq_bool_iff in H. lra. }
  split.
  - unfold get_mid_price. simpl.
    destruct bid as [pb | pb], ask as [pa | pa]; simpl in *; try discriminate;
      rewrite Nb, Na; reflexivity.
  - split.
    + apply Qle_shift_div_l; lra.
    + apply Qle_shift_div_r; lra.
Qed.

Lemma get_mid_price_between_witness :
  has_price_attr (LevelObject 0.48) = has_price_attr (LevelObject 0.52) /\
  0 < level_price (LevelObject 0.48) /\
  level_price (LevelObject 0.48) <= level_price (LevelObject 0.52) /\
  get_mid_price (Some (mk_order_book [LevelObject 0.48] [LevelObject 0.52]))
  = Returned (Some ((0.48 + 0.52) / 2)).
Proof.
  split; [reflexivity |]. split; [reflexivity |]. split; [discriminate |].
  apply (get_mid_price_between (LevelObject 0.48) (LevelObject 0.52) [] []);
    [reflexivity | reflexivity | discriminate].
Defined.

(** X27. A book without bids.  With dict levels [get_mid_price] returns the best
    ask less half a cent; with object levels, which is what the client
    library returns, it raises instead, because without a first bid the
    prices are read as dict items: the branch for an ask-only book is never
    reached there.  (A book without asks is read by the first bid and
    returns the best bid plus half a cent either way.) *)
Theorem get_mid_price_one_sided (l : level) (more : list level) :
  ~ level_price l == 0 ->
  get_mid_price (Some (mk_order_book [] (l :: more)))
  = (if has_price_attr l then Raised else Returned (Some (level_price l - 0.005))) /\
  get_mid_price (Some (mk_order_book (l :: more) []))
  = Returned (Some (level_price l + 0.005)).
Proof.
  intros N.
  assert (Nz : Qeq_bool (level_price l) 0 = false).
  { apply not_true_iff_false. intros H. apply Qeq_bool_iff in H. contradiction. }
  unfold get_mid_price. destruct l as [p | p]; simpl in *; rewrite ?Nz; now split.
Qed.

Lemma get_mid_price_one_sided_witness :
  ~ level_price (LevelObject 0.52) == 0 /\
  get_mid_price (Some (mk_order_book [] [LevelObject 0.52])) = Raised.
Proof.
  split; [discriminate |].
  apply (get_mid_price_one_sided (LevelObject 0.52) []). discriminate.
Defined.

(** X28. The price [get_token_price_from_gamma] reads off a market is the
    outcome price at the position of the first occurrence of the token id,
    and nothing when the token is not listed or has no price at that
    position: later occurrences of the id are never used. *)
Theorem find_token_price_first (token_id : string) (clob_token_ids : list string)
        (outcome_prices : list Q) :
  find_token_price token_id clob_token_ids outcome_prices 0
  = match index_of token_id clob_token_ids with
    | Some i => nth_error outcome_prices i
    | None => None
    end.
Proof. apply find_token_price_from. Qed.


(** ** The order of the rungs *)

Module LadderOrder.

Lemma FOP_snoc {A : Type} (R : A -> A -> Prop) (l : list A) (y : A) :
  ForallOrdPairs R l -> Forall (fun x => R x y) l -> ForallOrdPairs R (l ++ [y]).
Proof.
  induction 1 as [| a l Ha Hl IH]; intros F; simpl.
  - constructor; constructor.
  - inversion F as [| ? ? Fa Fl]; subst. constructor.
    + apply Forall_app. split; [exact Ha | constructor; [exact Fa | constructor]].
    + now apply IH.
Qed.

Section OneLoop.
Variables (b : bot) (mid su : Q) (s : side) (pr : nat -> Q) (lv : nat -> Z).
  Hypothesis outwards :
    forall i j, (i < j)%nat -> ~ pr i == pr j -> further s (pr i) (pr j).

Lemma loop_sorted (n : nat) (st0 : grid_state) :
    Forall (fun o => g_side o <> s) (orders st0) ->
    ForallOrdPairs ladder_order (orders st0) ->
    ForallOrdPairs ladder_order
      (orders (for_each (rung_body b mid su s pr lv) (range n) st0)).
Proof.
    intros H0 S0.
    destruct (for_range_inv (rung_body b mid su s pr lv)
                (fun k st => seen_before b mid s pr k st /\
                             Forall (from_accepted b mid s pr k) (orders st) /\
                             ForallOrdPairs ladder_order (orders st)) n)
      with (s := st0) as [k [_ [_ [_ Hs]]]]; [| | exact Hs].
    - intros i st Hi [Hseen [Hord Hsort]]. unfold rung_body, seen_before in *.
      assert (Hmono : Forall (from_accepted b mid s pr (Datatypes.S i)) (orders st)).
      { eapply Forall_impl; [| exact Hord].
        intros o Ho Es. destruct (Ho Es) as [i' [Hi' R]]. exists i'. split; [lia | exact R]. }
      destruct (rung_step_stepped b mid su s (pr i) (lv i) st)
        as [Hskip -> | F N P -> | o F N P _ Z ->].
      + split; [| split; [exact Hmono | exact Hsort]].
        intros j Hj Fj. destruct (Nat.eq_dec j i) as [-> | Hne].
        * destruct Hskip; congruence.
        * apply Hseen; [lia | exact Fj].
      + split; [| split; [exact Hmono | exact Hsort]].
        intros j Hj Fj. rewrite P. simpl. destruct (Nat.eq_dec j i) as [-> | Hne].
        * rewrite (proj2 (Qeq_bool_iff _ _)); reflexivity.
        * rewrite (Hseen j); [apply orb_true_r | lia | exact Fj].
      + destruct (sized_order_fields _ _ _ _ _ _ Z) as [Es [Ep _]].
        split; [| split].
        * intros j Hj Fj. rewrite P. simpl. destruct (Nat.eq_dec j i) as [-> | Hne].
          -- rewrite (proj2 (Qeq_bool_iff _ _)); reflexivity.
          -- rewrite (Hseen j); [apply orb_true_r | lia | exact Fj].
        * apply Forall_app. split; [exact Hmono |]. constructor; [| constructor].
          intros _. exists i. repeat split; [lia | exact Ep | exact F].
        * apply FOP_snoc; [exact Hsort |].
          eapply Forall_impl; [| exact Hord].
          intros o' Ho' Eside. rewrite Es in Eside.
          destruct (Ho' Eside) as [i' [Hi' [Ep' Fi']]].
          rewrite Eside, Ep, Ep'. apply outwards; [exact Hi' |].
          intros E. pose proof (Hseen i' Hi' Fi') as Pi'.
          rewrite E in Pi'. congruence.
    - split; [intros j Hj; lia |]. split; [| exact S0].
      eapply Forall_impl; [| exact H0]. intros o Ho Es. contradiction.
Qed.
End OneLoop.

Lemma buy_price_outwards (b : bot) (base : Q) :
  0 < grid_spacing (cfg b) ->
  forall i j, (i < j)%nat -> ~ buy_price b base i == buy_price b base j ->
              further BUY (buy_price b base i) (buy_price b base j).
Proof.
  intros Hs i j Hij Hne. simpl.
  assert (L : buy_price b base j <= buy_price b base i).
  { unfold buy_price. apply round_price_mono; [exact Hs |].
    assert (inject_Z (Z.of_nat i) <= inject_Z (Z.of_nat j)) by (rewrite <- Zle_Qle; lia).
    nra. }
  apply Qle_lteq in L. destruct L as [L | E]; [exact L |].
  exfalso. apply Hne. now symmetry.
Qed.

Lemma sell_price_outwards (b : bot) (base : Q) :
  0 < grid_spacing (cfg b) ->
  forall i j, (i < j)%nat -> ~ sell_price b base i == sell_price b base j ->
              further SELL (sell_price b base i) (sell_price b base j).
Proof.
  intros Hs i j Hij Hne. simpl.
  assert (L : sell_price b base i <= sell_price b base j).
  { unfold sell_price. apply round_price_mono; [exact Hs |].
    assert (inject_Z (Z.of_nat i) <= inject_Z (Z.of_nat j)) by (rewrite <- Zle_Qle; lia).
    nra. }
  apply Qle_lteq in L. destruct L as [L | E]; [exact L |].
  exfalso. now apply Hne.
Qed.

End LadderOrder.

Import LadderOrder.



